(** * label_coco_to_img_and_split.py: COCO labels to per-class image/mask folders

    A shallow embedding of [create_binary_mask] and [process_coco_dataset]
    and the properties of the partitioning and mask logic.

    Conventions of the embedding.
    - The parsed JSON document is a record [coco]; ids, heights, widths and
      polygon coordinates are integers ([Z]).  Polygon coordinates stand for
      the values held by the [np.int32] array built from the segmentation.
    - Python dictionaries whose iteration order is observed are association
      lists in insertion order; the others are [gmap]s.
    - Exceptions are values of [exn]; a computation that raises keeps the
      effects made so far.
    - Calls to the file system and to the console are recorded as [event]s,
      in program order.  Their own failures are outside the model.
    - [cv2.fillPoly] is a parameter: the set of pixels it paints.
    - numpy and OpenCV fail on their own outside the arrays and polygons
      they are made for: on an array without cells (a recorded height or
      width of 0), on a polygon without vertex and on a coordinate that is
      no [np.int32] value.  The embedding does not follow them there.  A
      statement that a mask or a round comes back therefore asks for
      sizes that are positive C [int]s and for [drawable] polygons; a
      statement about a round or a call that has come back needs no such
      hypothesis.  Exhaustion of memory is outside the model. *)

From Stdlib Require Import Ascii.
From stdpp Require Import gmap strings list fin_maps sorting.

Local Open Scope Z_scope.
#[local] Set Warnings "-clear-no-such-hyp".

(** ** Exceptions *)

Inductive exn : Type :=
| KeyError (key : Z)              (* d[key] on a dict without that key *)
| KeyError_pop_empty              (* set().pop() *)
| ValueError_reshape (size : nat) (* cannot reshape array of this size into (-1, 2) *)
| ValueError_negative_dimensions  (* np.zeros with a negative extent *)
| cv2_error_sizes.                (* cv2.bitwise_or on arrays of different shapes *)

Inductive result (A : Type) : Type :=
| Ok (a : A)
| Raise (e : exn).
Arguments Ok {A} a.
Arguments Raise {A} e.

Definition result_bind {A B} (r : result A) (f : A → result B) : result B :=
  match r with
  | Ok a => f a
  | Raise e => Raise e
  end.

Definition is_Ok {A} (r : result A) : bool :=
  match r with Ok _ => true | Raise _ => false end.

(** ** The JSON document *)

Record image : Type := {
  img_id : Z;                     (* img['id'] *)
  file_name : string;
  height : Z;
  width : Z
}.

Record category : Type := {
  cat_id : Z;                     (* cat['id'] *)
  cat_name : string               (* cat['name'] *)
}.

Record annotation : Type := {
  image_id : Z;
  category_id : Z;
  segmentation : list (list Z)
}.

Record coco : Type := {
  images : list image;
  categories : list category;
  annotations : list annotation
}.

(** ** Two-dimensional uint8 arrays *)

Record ndarray : Type := {
  nrows : nat;
  ncols : nat;
  cells : list (list Z)
}.

(** The cell grid has the extent announced by the shape. *)
Definition well_shaped (a : ndarray) : Prop :=
  length (cells a) = nrows a ∧ Forall (λ row, length row = ncols a) (cells a).

(** Every cell is 0 or 1. *)
Definition binary (a : ndarray) : Prop :=
  Forall (Forall (λ v, v = 0 ∨ v = 1)) (cells a).

(** The cell at row [r], column [c]; [None] outside the array. *)
Definition cell (a : ndarray) (r c : nat) : option Z :=
  cells a !! r ≫= λ row, row !! c.

(** A mask for an image of [h] rows and [w] columns. *)
Definition mask_of_shape (h w : nat) (a : ndarray) : Prop :=
  nrows a = h ∧ ncols a = w ∧ well_shaped a ∧ binary a.

(** [np.zeros((height, width), dtype=np.uint8)] *)
Definition np_zeros (height width : Z) : result ndarray :=
  if (height <? 0) || (width <? 0) then Raise ValueError_negative_dimensions
  else Ok {| nrows := Z.to_nat height;
             ncols := Z.to_nat width;
             cells := replicate (Z.to_nat height) (replicate (Z.to_nat width) 0) |}.

(** [np.array(segmentation, dtype=np.int32).reshape((-1, 2))] *)
Fixpoint pair_up (l : list Z) : option (list (Z * Z)) :=
  match l with
  | [] => Some []
  | [_] => None
  | x :: y :: l' => option_map (cons (x, y)) (pair_up l')
  end.

Definition reshape_pairs (segmentation : list Z) : result (list (Z * Z)) :=
  match pair_up segmentation with
  | Some poly => Ok poly
  | None => Raise (ValueError_reshape (length segmentation))
  end.

(** [cv2.bitwise_or(a, b)] *)
Definition bitwise_or (a b : ndarray) : result ndarray :=
  if decide (nrows a = nrows b ∧ ncols a = ncols b) then
    Ok {| nrows := nrows a;
          ncols := ncols a;
          cells := zip_with (zip_with Z.lor) (cells a) (cells b) |}
  else Raise cv2_error_sizes.

(** [combined_mask * 255] on uint8 *)
Definition times_255 (a : ndarray) : ndarray :=
  {| nrows := nrows a;
     ncols := ncols a;
     cells := map (map (λ v, (v * 255) mod 256)) (cells a) |}.

(** Lines 88 and 93 taken on their own: [combined_mask] starts as the zero
    array and is or-ed with one mask after the other. *)
Fixpoint accumulate_from (combined_mask : ndarray) (masks : list ndarray)
  : result ndarray :=
  match masks with
  | [] => Ok combined_mask
  | mask :: rest =>
      result_bind (bitwise_or combined_mask mask) (λ combined_mask',
      accumulate_from combined_mask' rest)
  end.

Definition accumulate (height width : Z) (masks : list ndarray) : result ndarray :=
  result_bind (np_zeros height width) (λ zeros, accumulate_from zeros masks).

(** ** Paths ([os.path] on POSIX) *)

(** [b.startswith('/')] *)
Definition starts_with_sep (b : string) : bool :=
  match b with
  | String a _ => Ascii.eqb a "/"%char
  | EmptyString => false
  end.

(** [path.endswith('/')] *)
Fixpoint ends_with_sep (path : string) : bool :=
  match path with
  | EmptyString => false
  | String a EmptyString => Ascii.eqb a "/"%char
  | String _ rest => ends_with_sep rest
  end.

(** [os.path.join(a, b)] *)
Definition path_join (a b : string) : string :=
  if starts_with_sep b then b
  else if String.eqb a "" || ends_with_sep a then a +:+ b
  else a +:+ "/" +:+ b.

(** [p.rfind(c)], scanning from index [i] with [last] the best index so far. *)
Fixpoint rfind_from (c : Ascii.ascii) (p : string) (i last : Z) : Z :=
  match p with
  | EmptyString => last
  | String a rest => rfind_from c rest (i + 1) (if Ascii.eqb a c then i else last)
  end.

Definition rfind (c : Ascii.ascii) (p : string) : Z := rfind_from c p 0 (-1).

(** [os.path.splitext(p)[0]]: the extension starts at the last dot of the
    last path component, unless that component has only dots before it. *)
Definition splitext_root (p : string) : string :=
  let sepIndex := rfind "/"%char p in
  let dotIndex := rfind "."%char p in
  if sepIndex <? dotIndex then
    let leading :=
      String.substring (Z.to_nat (sepIndex + 1)) (Z.to_nat (dotIndex - sepIndex - 1)) p in
    if forallb (λ a, Ascii.eqb a "."%char) (String.list_ascii_of_string leading) then p
    else String.substring 0 (Z.to_nat dotIndex) p
  else p.

(** ** Observable effects *)

Inductive message : Type :=
| Moved_unlabeled (image_filename : string)
| Skipping_multiple_classes (image_filename : string)
| Processed (image_filename category_name : string)
| Summary_header
| Summary_rule
| Summary_line (class_name : string) (count : nat)
| Summary_total (total_images : nat).

Inductive event : Type :=
| makedirs (path : string)
| copy2 (src dst : string)
| imwrite (path : string) (img : ndarray)
| print (msg : message).

(** ** The monad of the main function

    A computation reads and updates [class_counts], emits events and
    returns or raises.  What was counted and emitted before an exception
    stays. *)

Definition M (A : Type) : Type :=
  gmap string nat → result A * gmap string nat * list event.

Definition ret {A} (a : A) : M A := λ counts, (Ok a, counts, []).

Definition raise {A} (e : exn) : M A := λ counts, (Raise e, counts, []).

Definition bind {A B} (m : M A) (k : A → M B) : M B := λ counts,
  match m counts with
  | (Ok a, counts1, evs1) =>
      match k a counts1 with
      | (r, counts2, evs2) => (r, counts2, evs1 ++ evs2)
      end
  | (Raise e, counts1, evs1) => (Raise e, counts1, evs1)
  end.

#[export] Instance M_ret : MRet M := @ret.
#[export] Instance M_bind : MBind M := λ A B k m, bind m k.

Definition emit (ev : event) : M unit := λ counts, (Ok tt, counts, [ev]).

(** [class_counts[key] += 1] on a [defaultdict(int)]: a missing key reads
    as 0 and is created by the assignment. *)
Definition bump (key : string) (counts : gmap string nat) : gmap string nat :=
  <[key := S (counts !!! key)]> counts.

Definition increment (key : string) : M unit := λ counts,
  (Ok tt, bump key counts, []).

Definition get_counts : M (gmap string nat) := λ counts, (Ok counts, counts, []).

Definition lift {A} (r : result A) : M A :=
  match r with
  | Ok a => ret a
  | Raise e => raise e
  end.

(** [d[key]] on a dict *)
Definition getitem {V} (d : gmap Z V) (key : Z) : M V :=
  match d !! key with
  | Some v => ret v
  | None => raise (KeyError key)
  end.

(** [for x in l: body(x)] *)
Fixpoint for_each {A} (l : list A) (body : A → M unit) : M unit :=
  match l with
  | [] => ret tt
  | x :: l' => body x ;; for_each l' body
  end.

(** ** The lookup tables *)

(** [{img['id']: img['file_name'] for img in coco_data['images']}]:
    a later record with the same id replaces the earlier entry. *)
Definition image_id_to_file (coco_data : coco) : gmap Z string :=
  fold_left (λ d img, <[img_id img := file_name img]> d) (images coco_data) ∅.

Definition image_id_to_size (coco_data : coco) : gmap Z (Z * Z) :=
  fold_left (λ d img, <[img_id img := (height img, width img)]> d)
    (images coco_data) ∅.

Definition category_map (coco_data : coco) : gmap Z string :=
  fold_left (λ d cat, <[cat_id cat := cat_name cat]> d) (categories coco_data) ∅.

(** One round of the grouping loop: a new key goes to the end of the dict,
    a known key keeps its place and its list grows at the end. *)
Fixpoint append_annotation (image_annotations : list (Z * list annotation))
    (ann : annotation) : list (Z * list annotation) :=
  match image_annotations with
  | [] => [(image_id ann, [ann])]
  | (k, anns) :: rest =>
      if decide (k = image_id ann) then (k, anns ++ [ann]) :: rest
      else (k, anns) :: append_annotation rest ann
  end.

Definition image_annotations (coco_data : coco) : list (Z * list annotation) :=
  fold_left append_annotation (annotations coco_data) [].

(** [key in image_annotations] *)
Definition contains {V} (d : list (Z * V)) (key : Z) : bool :=
  bool_decide (key ∈ d.*1).

(** [set(ann['category_id'] for ann in annotations)] *)
Definition category_ids (anns : list annotation) : gset Z :=
  list_to_set (category_id <$> anns).

(** [category_ids.pop()] *)
Definition set_pop (s : gset Z) : M Z :=
  match elements s with
  | c :: _ => ret c
  | [] => raise KeyError_pop_empty
  end.

(** All annotations of the list carry the same category id. *)
Definition shares_one_category (anns : list annotation) : Prop :=
  ∃ cid, ∀ a, a ∈ anns → category_id a = cid.

(** Two annotations of the list carry different category ids. *)
Definition two_categories (anns : list annotation) : Prop :=
  ∃ a b, a ∈ anns ∧ b ∈ anns ∧ category_id a ≠ category_id b.

(** [sorted(class_counts.items())]: the keys are distinct, so the order of
    the pairs is the order of their names, character by character. *)
Definition item_le (a b : string * nat) : Prop := String.leb a.1 b.1 = true.

#[local] Instance item_le_dec : RelDecision item_le.
Proof. intros a b. unfold item_le. apply _. Defined.

Definition sorted_items (counts : gmap string nat) : list (string * nat) :=
  merge_sort item_le (map_to_list counts).

(** ** A conventional polygon fill *)

(** The edges of a closed polygon: each vertex with its successor, the last
    one with the first. *)
Definition polygon_edges (poly : list (Z * Z)) : list ((Z * Z) * (Z * Z)) :=
  zip poly (rotate 1 poly).

(** The pixel [(x, y)] lies on the segment from [p] to [q]. *)
Definition on_edge (x y : Z) (e : (Z * Z) * (Z * Z)) : bool :=
  let '((x1, y1), (x2, y2)) := e in
  ((x - x1) * (y2 - y1) =? (y - y1) * (x2 - x1))
  && (Z.min x1 x2 <=? x) && (x <=? Z.max x1 x2)
  && (Z.min y1 y2 <=? y) && (y <=? Z.max y1 y2).

(** The horizontal ray leaving [(x, y)] to the right crosses the edge. *)
Definition ray_crosses (x y : Z) (e : (Z * Z) * (Z * Z)) : bool :=
  let '((x1, y1), (x2, y2)) := e in
  if (y1 <=? y) && (y <? y2) then (x - x1) * (y2 - y1) <? (y - y1) * (x2 - x1)
  else if (y2 <=? y) && (y <? y1) then (y - y1) * (x2 - x1) <? (x - x1) * (y2 - y1)
  else false.

(** Modelled from the spec: [cv2.fillPoly] belongs to OpenCV, not to the
    repository.  The spec asks for conventional polygon-fill semantics; this
    is the even-odd rule on pixel positions, with the boundary painted too.
    It instantiates the parameter of the section below in the examples. *)
Definition even_odd_fill (poly : list (Z * Z)) (x y : Z) : bool :=
  existsb (on_edge x y) (polygon_edges poly)
  || Nat.odd (length (filter (λ e, ray_crosses x y e = true) (polygon_edges poly))).

(** ** Sample documents *)

Definition square : list Z := [0; 0; 0; 2; 2; 2; 2; 0].
Definition triangle : list Z := [1; 1; 3; 1; 3; 3].

(** Two masks of two rows and two columns. *)
Definition corner_a : ndarray :=
  {| nrows := 2; ncols := 2; cells := [[1; 0]; [0; 0]] |}.

(** One labeled image of class "cat" and one unlabeled image. *)
Definition cat_coco : coco :=
  {| images := [ {| img_id := 1; file_name := "a.jpg"; height := 4; width := 4 |};
                 {| img_id := 2; file_name := "b.jpg"; height := 3; width := 3 |} ];
     categories := [ {| cat_id := 1; cat_name := "cat" |} ];
     annotations :=
       [ {| image_id := 1; category_id := 1; segmentation := [square] |};
         {| image_id := 1; category_id := 1; segmentation := [triangle] |} ] |}.

(** One image annotated with two categories. *)
Definition mixed_coco : coco :=
  {| images := [ {| img_id := 1; file_name := "a.jpg"; height := 4; width := 4 |} ];
     categories := [ {| cat_id := 1; cat_name := "cat" |};
                     {| cat_id := 2; cat_name := "dog" |} ];
     annotations :=
       [ {| image_id := 1; category_id := 1; segmentation := [square] |};
         {| image_id := 1; category_id := 2; segmentation := [triangle] |} ] |}.

(** One image whose only category id, 7, is no category record. *)
Definition dangling_coco : coco :=
  {| images := [ {| img_id := 1; file_name := "a.jpg"; height := 4; width := 4 |} ];
     categories := [ {| cat_id := 1; cat_name := "cat" |} ];
     annotations :=
       [ {| image_id := 1; category_id := 7; segmentation := [square] |} ] |}.

(** The image id 1 and the category id 1 twice, and annotations whose
    category ids 7 and 8 are no category records. *)
Definition unchecked_coco : coco :=
  {| images := [ {| img_id := 1; file_name := "a.jpg"; height := 4; width := 4 |};
                 {| img_id := 1; file_name := "b.jpg"; height := 4; width := 4 |} ];
     categories := [ {| cat_id := 1; cat_name := "cat" |};
                     {| cat_id := 1; cat_name := "dog" |} ];
     annotations :=
       [ {| image_id := 1; category_id := 7; segmentation := [square] |};
         {| image_id := 1; category_id := 8; segmentation := [triangle] |} ] |}.

(** An annotation for the image id 5, which is no image record. *)
Definition orphan_coco : coco :=
  {| images := [ {| img_id := 1; file_name := "a.jpg"; height := 4; width := 4 |} ];
     categories := [ {| cat_id := 1; cat_name := "cat" |} ];
     annotations :=
       [ {| image_id := 5; category_id := 1; segmentation := [square] |} ] |}.

(** A category named "clean", one image of it and one unlabeled image. *)
Definition clean_coco : coco :=
  {| images := [ {| img_id := 1; file_name := "a.jpg"; height := 4; width := 4 |};
                 {| img_id := 2; file_name := "b.jpg"; height := 3; width := 3 |} ];
     categories := [ {| cat_id := 1; cat_name := "clean" |} ];
     annotations :=
       [ {| image_id := 1; category_id := 1; segmentation := [square] |} ] |}.

(** A polygon with an odd number of coordinates on a labeled image. *)
Definition odd_coco : coco :=
  {| images := [ {| img_id := 1; file_name := "a.jpg"; height := 4; width := 4 |} ];
     categories := [ {| cat_id := 1; cat_name := "cat" |} ];
     annotations :=
       [ {| image_id := 1; category_id := 1; segmentation := [[0; 0; 1]] |} ] |}.

(** Three labeled images; the category id 7 of the second one is no
    category record. *)
Definition late_coco : coco :=
  {| images := [ {| img_id := 1; file_name := "a.jpg"; height := 4; width := 4 |};
                 {| img_id := 2; file_name := "b.jpg"; height := 3; width := 3 |};
                 {| img_id := 3; file_name := "c.jpg"; height := 4; width := 4 |} ];
     categories := [ {| cat_id := 1; cat_name := "cat" |} ];
     annotations :=
       [ {| image_id := 1; category_id := 1; segmentation := [square] |};
         {| image_id := 2; category_id := 7; segmentation := [square] |};
         {| image_id := 3; category_id := 1; segmentation := [triangle] |} ] |}.

(** What an event adds to the number of finished images of a class: the
    notice that ends the work on a labeled image, and the notice that ends
    the copy of an unlabeled one. *)
Definition finished (class_name : string) (ev : event) : nat :=
  match ev with
  | print (Processed _ category_name) =>
      if decide (category_name = class_name) then 1 else 0
  | print (Moved_unlabeled _) =>
      if decide ("clean" = class_name) then 1 else 0
  | _ => 0
  end%nat.

(** No key of [class_counts] holds a zero. *)
Definition positive_counts (counts : gmap string nat) : Prop :=
  ∀ k n, counts !! k = Some n → (0 < n)%nat.

(** The paths an event creates or writes to. *)
Definition written_paths (ev : event) : list string :=
  match ev with
  | makedirs path => [path]
  | copy2 _ dst => [dst]
  | imwrite path _ => [path]
  | print _ => []
  end.

(** What an event prints, if anything. *)
Definition printed (ev : event) : option message :=
  match ev with
  | print msg => Some msg
  | _ => None
  end.

(** The file named by the notice on an unlabeled image, if the event is
    one. *)
Definition moved (ev : event) : option string :=
  match ev with
  | print (Moved_unlabeled image_filename) => Some image_filename
  | _ => None
  end.

(** Every path that the event creates or writes to begins with [dir]. *)
Definition confined (dir : string) (ev : event) : Prop :=
  ∀ path, path ∈ written_paths ev → String.prefix dir path = true.

(** [c in s] for a character and a string. *)
Definition has_char (c : Ascii.ascii) (s : string) : bool :=
  existsb (Ascii.eqb c) (String.list_ascii_of_string s).

(** The string holds nothing but dots; the empty string does. *)
Definition all_dots (s : string) : bool :=
  forallb (λ a, Ascii.eqb a "."%char) (String.list_ascii_of_string s).

(** The first polygon of the list with an odd number of coordinates. *)
Definition first_odd (segs : list (list Z)) : option (list Z) :=
  List.find (λ seg, Nat.odd (length seg)) segs.

(** ** Where numpy and OpenCV are followed *)

(** The values of [np.int32]. *)
Definition int32 (z : Z) : Prop := - 2 ^ 31 ≤ z < 2 ^ 31.

(** A height or a width of an array that [np.zeros] and OpenCV take without
    an exception of their own: positive, and a C [int]. *)
Definition extent (z : Z) : Prop := 0 < z < 2 ^ 31.

(** A polygon that [np.array(..., dtype=np.int32)] and [cv2.fillPoly] take
    without an exception of their own: it has a coordinate, and every
    coordinate is an [np.int32] value. *)
Definition drawable (seg : list Z) : Prop := seg ≠ [] ∧ Forall int32 seg.

(** A document on which the embedding follows numpy and OpenCV: no recorded
    height or width is 0, all of them are C [int]s, and every polygon is
    drawable. *)
Definition in_domain (coco_data : coco) : Prop :=
  (∀ img, img ∈ images coco_data →
     height img ≠ 0 ∧ width img ≠ 0 ∧ int32 (height img) ∧ int32 (width img)) ∧
  (∀ ann seg, ann ∈ annotations coco_data → seg ∈ segmentation ann →
     drawable seg).

(** Settles a goal from the membership [H] in a list that is written out,
    element by element. *)
Local Ltac members H :=
  repeat (apply elem_of_cons in H as [->|H]; [done|]); by apply elem_of_nil in H.

(** The coordinates that are written out are [np.int32] values. *)
Local Ltac int32_list :=
  repeat (apply Forall_cons; split; [unfold int32; lia|]); by apply Forall_nil.

(** The polygons of a list that is written out are drawable. *)
Local Ltac drawable_members H :=
  repeat (apply elem_of_cons in H as [->|H]; [split; [done|int32_list]|]);
  by apply elem_of_nil in H.

(** A sample document is in the domain. *)
Local Ltac in_domain_sample :=
  split;
  [ intros img Himg;
    repeat (apply elem_of_cons in Himg as [->|Himg];
            [unfold int32; simpl; split_and!; lia|]);
    by apply elem_of_nil in Himg
  | intros ann seg Hann Hseg;
    repeat (apply elem_of_cons in Hann as [->|Hann];
            [cbn [segmentation] in Hseg; drawable_members Hseg|]);
    by apply elem_of_nil in Hann ].

Section Raster.

(** [painted poly x y]: does [cv2.fillPoly] paint the pixel in column [x]
    and row [y] when it fills the polygon with vertices [poly]? *)
Variable painted : list (Z * Z) → Z → Z → bool.

(** [cv2.fillPoly(mask, [poly], color)]: the painted pixels that lie in the
    array take the colour, the others keep their value. *)
Definition fillPoly (mask : ndarray) (poly : list (Z * Z)) (color : Z) : ndarray :=
  {| nrows := nrows mask;
     ncols := ncols mask;
     cells := imap (λ r, imap (λ c v,
                if painted poly (Z.of_nat c) (Z.of_nat r) then color else v))
                (cells mask) |}.

Definition create_binary_mask (segmentation : list Z) (height width : Z)
  : result ndarray :=
  result_bind (np_zeros height width) (λ mask,
  result_bind (reshape_pairs segmentation) (λ poly,
  Ok (fillPoly mask poly 1))).

(** Lines 90-93: the two nested loops that build [combined_mask]. *)
Fixpoint or_polygons (combined_mask : ndarray) (segmentations : list (list Z))
    (height width : Z) : result ndarray :=
  match segmentations with
  | [] => Ok combined_mask
  | segmentation :: rest =>
      result_bind (create_binary_mask segmentation height width) (λ mask,
      result_bind (bitwise_or combined_mask mask) (λ combined_mask',
      or_polygons combined_mask' rest height width))
  end.

Fixpoint or_annotations (combined_mask : ndarray) (anns : list annotation)
    (height width : Z) : result ndarray :=
  match anns with
  | [] => Ok combined_mask
  | ann :: rest =>
      result_bind (or_polygons combined_mask (segmentation ann) height width)
        (λ combined_mask', or_annotations combined_mask' rest height width)
  end.

(** The masks of a list of polygons, in order; the first polygon that
    cannot be rasterized decides the exception. *)
Fixpoint rasterize_all (segmentations : list (list Z)) (height width : Z)
  : result (list ndarray) :=
  match segmentations with
  | [] => Ok []
  | segmentation :: rest =>
      result_bind (create_binary_mask segmentation height width) (λ mask,
      result_bind (rasterize_all rest height width) (λ masks,
      Ok (mask :: masks)))
  end.

(** Every polygon of every annotation of one image, in loop order. *)
Definition all_polygons (anns : list annotation) : list (list Z) :=
  anns ≫= segmentation.

Section Run.

Variable coco_data : coco.
Variables images_dir output_base_dir : string.

Definition clean_dir : string := path_join output_base_dir "clean".

(** Lines 48-54: the body of the loop over the image records. *)
Definition move_unlabeled (img : image) : M unit :=
  if contains (image_annotations coco_data) (img_id img) then ret tt
  else
    let image_filename := file_name img in
    let src_image_path := path_join images_dir image_filename in
    let dst_image_path := path_join clean_dir image_filename in
    emit (copy2 src_image_path dst_image_path) ;;
    increment "clean" ;;
    emit (print (Moved_unlabeled image_filename)).

(** Lines 58-100: the body of the loop over the annotation index. *)
Definition process_image (item : Z * list annotation) : M unit :=
  let '(image_id, anns) := item in
  let ids := category_ids anns in
  if decide (1 < size ids)%nat then
    image_filename ← getitem (image_id_to_file coco_data) image_id;
    emit (print (Skipping_multiple_classes image_filename))
  else
    category_id ← set_pop ids;
    category_name ← getitem (category_map coco_data) category_id;
    let class_dir := path_join output_base_dir category_name in
    let images_dir_dest := path_join class_dir "images" in
    let masks_dir := path_join class_dir "masks" in
    emit (makedirs images_dir_dest) ;;
    emit (makedirs masks_dir) ;;
    image_filename ← getitem (image_id_to_file coco_data) image_id;
    let src_image_path := path_join images_dir image_filename in
    let dst_image_path := path_join images_dir_dest image_filename in
    emit (copy2 src_image_path dst_image_path) ;;
    increment category_name ;;
    size ← getitem (image_id_to_size coco_data) image_id;
    let '(height, width) := size in
    zeros ← lift (np_zeros height width);
    combined_mask ← lift (or_annotations zeros anns height width);
    let mask_filename := splitext_root image_filename +:+ ".png" in
    let mask_path := path_join masks_dir mask_filename in
    emit (imwrite mask_path (times_255 combined_mask)) ;;
    emit (print (Processed image_filename category_name)).

(** The events of one image of the index, named for the statements below:
    the two directories, the copy, and what follows a complete mask. *)
Definition dir_events (category_name : string) : list event :=
  let class_dir := path_join output_base_dir category_name in
  [ makedirs (path_join class_dir "images");
    makedirs (path_join class_dir "masks") ].

Definition copy_events (category_name image_filename : string) : list event :=
  let class_dir := path_join output_base_dir category_name in
  dir_events category_name ++
  [ copy2 (path_join images_dir image_filename)
          (path_join (path_join class_dir "images") image_filename) ].

Definition mask_events (category_name image_filename : string)
    (combined_mask : ndarray) : list event :=
  let class_dir := path_join output_base_dir category_name in
  [ imwrite (path_join (path_join class_dir "masks")
               (splitext_root image_filename +:+ ".png"))
            (times_255 combined_mask);
    print (Processed image_filename category_name) ].

(** The events of one unlabeled image record. *)
Definition clean_events (img : image) : list event :=
  [ copy2 (path_join images_dir (file_name img))
          (path_join clean_dir (file_name img));
    print (Moved_unlabeled (file_name img)) ].

(** The class an entry of the index is counted under: the name of its
    category when its annotations have one category id between them and
    the id has a name. *)
Definition class_of (anns : list annotation) : option string :=
  if decide (1 < size (category_ids anns))%nat then None
  else head (elements (category_ids anns)) ≫= λ cid, category_map coco_data !! cid.

(** Every way in which the loop body can end. *)
Inductive step_outcome (iid : Z) (anns : list annotation)
    (counts : gmap string nat)
  : result unit → gmap string nat → list event → Prop :=
| step_skipped f :
    two_categories anns →
    image_id_to_file coco_data !! iid = Some f →
    step_outcome iid anns counts
      (Ok tt) counts [print (Skipping_multiple_classes f)]
| step_skip_no_file :
    two_categories anns →
    image_id_to_file coco_data !! iid = None →
    step_outcome iid anns counts (Raise (KeyError iid)) counts []
| step_no_annotation :
    anns = [] →
    step_outcome iid anns counts (Raise KeyError_pop_empty) counts []
| step_no_category cid :
    anns ≠ [] → (∀ a, a ∈ anns → category_id a = cid) →
    category_map coco_data !! cid = None →
    step_outcome iid anns counts (Raise (KeyError cid)) counts []
| step_no_file cid name :
    anns ≠ [] → (∀ a, a ∈ anns → category_id a = cid) →
    category_map coco_data !! cid = Some name →
    image_id_to_file coco_data !! iid = None →
    step_outcome iid anns counts
      (Raise (KeyError iid)) counts (dir_events name)
| step_no_size cid name f :
    anns ≠ [] → (∀ a, a ∈ anns → category_id a = cid) →
    category_map coco_data !! cid = Some name →
    image_id_to_file coco_data !! iid = Some f →
    image_id_to_size coco_data !! iid = None →
    step_outcome iid anns counts
      (Raise (KeyError iid)) (bump name counts)
      (copy_events name f)
| step_mask_failed cid name f h w e :
    anns ≠ [] → (∀ a, a ∈ anns → category_id a = cid) →
    category_map coco_data !! cid = Some name →
    image_id_to_file coco_data !! iid = Some f →
    image_id_to_size coco_data !! iid = Some (h, w) →
    result_bind (np_zeros h w) (λ zeros, or_annotations zeros anns h w)
      = Raise e →
    step_outcome iid anns counts
      (Raise e) (bump name counts)
      (copy_events name f)
| step_assigned cid name f h w mask :
    anns ≠ [] → (∀ a, a ∈ anns → category_id a = cid) →
    category_map coco_data !! cid = Some name →
    image_id_to_file coco_data !! iid = Some f →
    image_id_to_size coco_data !! iid = Some (h, w) →
    result_bind (np_zeros h w) (λ zeros, or_annotations zeros anns h w)
      = Ok mask →
    step_outcome iid anns counts
      (Ok tt) (bump name counts)
      (copy_events name f
       ++ mask_events name f mask).

(** The image records without an entry in the index. *)
Definition unlabeled_images : list image :=
  filter (λ img, contains (image_annotations coco_data) (img_id img) = false)
    (images coco_data).

(** The entries of the index counted under [class_name]. *)
Definition images_of_class (class_name : string) : list (Z * list annotation) :=
  filter (λ item, class_of item.2 = Some class_name) (image_annotations coco_data).

(** An entry of the index that the second loop can take to its end: its
    image id belongs to an image record, and either two category ids occur,
    or the one category id belongs to a category record, the height and the
    width recorded for the image are positive and every polygon has an even
    number of coordinates. *)
Definition processable (iid : Z) (anns : list annotation) : Prop :=
  (∃ img, img ∈ images coco_data ∧ img_id img = iid) ∧
  (two_categories anns ∨
   ∃ cid img,
     (∀ a, a ∈ anns → category_id a = cid) ∧
     (∃ cat, cat ∈ categories coco_data ∧ cat_id cat = cid) ∧
     last (filter (λ img, img_id img = iid) (images coco_data)) = Some img ∧
     0 < height img ∧ 0 < width img ∧
     ∀ seg, seg ∈ all_polygons anns → Nat.Even (length seg)).

(** The one notice that a finished round prints for its entry. *)
Definition reported (item : Z * list annotation) (msg : message) : Prop :=
  ∃ f, image_id_to_file coco_data !! item.1 = Some f ∧
    ((two_categories item.2 ∧ msg = Skipping_multiple_classes f) ∨
     (∃ name, class_of item.2 = Some name ∧ msg = Processed f name)).

(** An event of the work on the annotated images: a directory, a copy or a
    mask of the class of an entry of the index, under the file name recorded
    for the image id of that entry, or a line that is not the notice on an
    unlabeled image. *)
Definition labeled_event (ev : event) : Prop :=
  match ev with
  | makedirs path =>
      ∃ item name, item ∈ image_annotations coco_data ∧
        class_of item.2 = Some name ∧ makedirs path ∈ dir_events name
  | copy2 src dst =>
      ∃ item name f, item ∈ image_annotations coco_data ∧
        class_of item.2 = Some name ∧
        image_id_to_file coco_data !! item.1 = Some f ∧
        src = path_join images_dir f ∧
        dst = path_join (path_join (path_join output_base_dir name) "images") f
  | imwrite path _ =>
      ∃ item name f, item ∈ image_annotations coco_data ∧
        class_of item.2 = Some name ∧
        image_id_to_file coco_data !! item.1 = Some f ∧
        path = path_join (path_join (path_join output_base_dir name) "masks")
                 (splitext_root f +:+ ".png")
  | print (Moved_unlabeled _) => False
  | print _ => True
  end.

(** The entries of the index that are passed over for having more than one
    category id. *)
Definition skipped_entries : list (Z * list annotation) :=
  filter (λ item, (1 < size (category_ids item.2))%nat) (image_annotations coco_data).

(** Lines 103-110: the summary. *)
Definition print_summary : M unit :=
  counts ← get_counts;
  emit (print Summary_header) ;;
  emit (print Summary_rule) ;;
  for_each (sorted_items counts)
    (λ item, emit (print (Summary_line item.1 item.2))) ;;
  emit (print Summary_rule) ;;
  emit (print (Summary_total (sum_list (sorted_items counts).*2))).

Definition summary_events (counts : gmap string nat) : list event :=
  [print Summary_header; print Summary_rule]
  ++ ((λ item, print (Summary_line item.1 item.2)) <$> sorted_items counts)
  ++ [print Summary_rule; print (Summary_total (sum_list (sorted_items counts).*2))].

Definition run : M (gmap string nat) :=
  emit (makedirs clean_dir) ;;
  for_each (images coco_data) move_unlabeled ;;
  for_each (image_annotations coco_data) process_image ;;
  print_summary ;;
  get_counts.

End Run.

(** What a call of [process_coco_dataset] leaves behind: the events, and
    the returned [class_counts] or the exception that ended the call. *)
Inductive outcome : Type :=
| Returned (class_counts : gmap string nat) (log : list event)
| Raised (e : exn) (log : list event).

Definition process_coco_dataset (coco_data : coco)
    (images_dir output_base_dir : string) : outcome :=
  match run coco_data images_dir output_base_dir ∅ with
  | (Ok class_counts, _, log) => Returned class_counts log
  | (Raise e, _, log) => Raised e log
  end.

(** The events of a call, however it ended. *)
Definition events_of (o : outcome) : list event :=
  match o with
  | Returned _ log => log
  | Raised _ log => log
  end.

(** * Properties *)

(** ** Arrays *)








Lemma np_zeros_Ok (h w : Z) :
  0 ≤ h → 0 ≤ w →
  np_zeros h w = Ok {| nrows := Z.to_nat h; ncols := Z.to_nat w;
                       cells := replicate (Z.to_nat h) (replicate (Z.to_nat w) 0) |}.
Proof.
  intros Hh Hw. unfold np_zeros.
  destruct (Z.ltb_spec h 0); [lia|]. destruct (Z.ltb_spec w 0); [lia|]. done.
Qed.

Lemma np_zeros_inv (h w : Z) (z : ndarray) :
  np_zeros h w = Ok z →
  0 ≤ h ∧ 0 ≤ w ∧
  z = {| nrows := Z.to_nat h; ncols := Z.to_nat w;
         cells := replicate (Z.to_nat h) (replicate (Z.to_nat w) 0) |}.
Proof.
  unfold np_zeros.
  destruct (Z.ltb_spec h 0); [done|]. destruct (Z.ltb_spec w 0); [done|].
  simpl. intros [= <-]. done.
Qed.





(** ** The rasterizer *)

Lemma list_pair_ind {A} (P : list A → Prop) :
  P [] → (∀ x, P [x]) → (∀ x y l, P l → P (x :: y :: l)) → ∀ l, P l.
Proof.
  intros Hnil Hone Hstep. fix IH 1. intros [|x [|y l]]; [done..|].
  apply Hstep, IH.
Qed.

Lemma pair_up_parity (l : list Z) :
  if Nat.even (length l) then is_Some (pair_up l) else pair_up l = None.
Proof.
  induction l as [| |x y l IH] using list_pair_ind; simpl; [by eexists|done|].
  destruct (Nat.even (length l)).
  - destruct IH as [poly ->]. by eexists.
  - by rewrite IH.
Qed.

Lemma reshape_pairs_odd (seg : list Z) :
  Nat.Odd (length seg) →
  reshape_pairs seg = Raise (ValueError_reshape (length seg)).
Proof.
  intros Hodd. unfold reshape_pairs. pose proof (pair_up_parity seg) as Hp.
  apply Nat.odd_spec in Hodd. rewrite <- Nat.negb_even in Hodd.
  destruct (Nat.even (length seg)); [done|]. by rewrite Hp.
Qed.

Lemma reshape_pairs_even (seg : list Z) :
  Nat.Even (length seg) → ∃ poly, reshape_pairs seg = Ok poly.
Proof.
  intros Heven. unfold reshape_pairs. pose proof (pair_up_parity seg) as Hp.
  apply Nat.even_spec in Heven. rewrite Heven in Hp.
  destruct Hp as [poly ->]. by eexists.
Qed.

Lemma cell_fillPoly (mask : ndarray) (poly : list (Z * Z)) (color : Z) (r c : nat) :
  cell (fillPoly mask poly color) r c
  = (λ v, if painted poly (Z.of_nat c) (Z.of_nat r) then color else v)
      <$> cell mask r c.
Proof.
  unfold cell, fillPoly. simpl. rewrite list_lookup_imap.
  destruct (cells mask !! r) as [row|]; simpl; [|done].
  apply list_lookup_imap.
Qed.

Lemma well_shaped_fillPoly (mask : ndarray) (poly : list (Z * Z)) (color : Z) :
  well_shaped mask → well_shaped (fillPoly mask poly color).
Proof.
  intros [Hlen Hrows]. split; simpl; [by rewrite length_imap|].
  apply Forall_lookup. intros r row. rewrite list_lookup_imap.
  destruct (cells mask !! r) as [row0|] eqn:Hr; simpl; [|done].
  intros [= <-]. rewrite length_imap.
  by apply (Forall_lookup_1 _ _ _ _ Hrows Hr).
Qed.

Lemma binary_fillPoly_1 (mask : ndarray) (poly : list (Z * Z)) :
  binary mask → binary (fillPoly mask poly 1).
Proof.
  unfold binary. intros Hbin. simpl.
  apply Forall_lookup. intros r row. rewrite list_lookup_imap.
  destruct (cells mask !! r) as [row0|] eqn:Hr; simpl; [|done].
  intros [= <-]. apply Forall_lookup. intros c v. rewrite list_lookup_imap.
  destruct (row0 !! c) as [v0|] eqn:Hc; simpl; [|done].
  intros [= <-]. destruct (painted _ _ _); [by right|].
  pose proof (Forall_lookup_1 _ _ _ _ Hbin Hr) as Hrow.
  by apply (Forall_lookup_1 _ _ _ _ Hrow Hc).
Qed.

Lemma well_shaped_zeros (h w : nat) :
  well_shaped {| nrows := h; ncols := w; cells := replicate h (replicate w 0) |}.
Proof.
  split; simpl; [apply length_replicate|].
  apply Forall_replicate, length_replicate.
Qed.

Lemma binary_zeros (h w : nat) :
  binary {| nrows := h; ncols := w; cells := replicate h (replicate w 0) |}.
Proof.
  unfold binary. simpl. apply Forall_replicate, Forall_replicate. by left.
Qed.

Lemma cell_zeros (h w r c : nat) :
  (r < h)%nat → (c < w)%nat →
  cell {| nrows := h; ncols := w; cells := replicate h (replicate w 0) |} r c
  = Some 0.
Proof.
  intros Hr Hc. unfold cell. simpl.
  rewrite lookup_replicate_2 by done. simpl. by rewrite lookup_replicate_2.
Qed.

(** What a successful call of [create_binary_mask] returns. *)
Lemma create_binary_mask_Ok (seg : list Z) (h w : Z) (mask : ndarray) :
  create_binary_mask seg h w = Ok mask →
  ∃ poly, reshape_pairs seg = Ok poly ∧ 0 ≤ h ∧ 0 ≤ w ∧
    nrows mask = Z.to_nat h ∧ ncols mask = Z.to_nat w ∧
    well_shaped mask ∧ binary mask ∧
    ∀ r c, (r < Z.to_nat h)%nat → (c < Z.to_nat w)%nat →
      cell mask r c = Some (if painted poly (Z.of_nat c) (Z.of_nat r) then 1 else 0).
Proof.
  unfold create_binary_mask. intros Hmask.
  destruct (np_zeros h w) as [zeros|] eqn:Hz; simpl in Hmask; [|done].
  destruct (reshape_pairs seg) as [poly|] eqn:Hp; simpl in Hmask; [|done].
  injection Hmask as <-. apply np_zeros_inv in Hz as (Hh & Hw & ->).
  exists poly. split_and!; try done.
  - apply well_shaped_fillPoly, well_shaped_zeros.
  - apply binary_fillPoly_1, binary_zeros.
  - intros r c Hr Hc. by rewrite cell_fillPoly, cell_zeros.
Qed.

(** C4 (amended). For a height and a width that are positive C [int]s and
    coordinates that are [np.int32] values, the only check on the polygon is
    the reshape into
    pairs: an odd number of coordinates raises; an even, non-zero number of
    coordinates is rasterized into a height x width grid of zeros and ones,
    also when it makes up fewer than three points. *)
Theorem create_binary_mask_checks_parity_only (seg : list Z) (h w : Z) :
  extent h → extent w → Forall int32 seg →
  (Nat.Odd (length seg) →
     create_binary_mask seg h w = Raise (ValueError_reshape (length seg))) ∧
  (Nat.Even (length seg) → seg ≠ [] →
     ∃ mask, create_binary_mask seg h w = Ok mask ∧
       nrows mask = Z.to_nat h ∧ ncols mask = Z.to_nat w ∧
       well_shaped mask ∧ binary mask).
Proof.
  intros [Hh%Z.lt_le_incl _] [Hw%Z.lt_le_incl _] _. split.
  - intros Hodd. unfold create_binary_mask.
    rewrite np_zeros_Ok by done. simpl. by rewrite reshape_pairs_odd.
  - intros Heven _. destruct (reshape_pairs_even seg Heven) as [poly Hp].
    destruct (create_binary_mask seg h w) as [mask|e] eqn:Hmask.
    + exists mask.
      apply create_binary_mask_Ok in Hmask as (_ & _ & _ & _ & ? & ? & ? & ? & _).
      done.
    + unfold create_binary_mask in Hmask.
      rewrite np_zeros_Ok, Hp in Hmask by done. done.
Qed.

Lemma reshape_pairs_length (seg : list Z) (poly : list (Z * Z)) :
  reshape_pairs seg = Ok poly → length seg = (2 * length poly)%nat.
Proof.
  unfold reshape_pairs. destruct (pair_up seg) as [poly'|] eqn:Hpair; [|done].
  intros [= <-]. revert poly' Hpair.
  induction seg as [| |x y seg IH] using list_pair_ind; intros poly; simpl.
  - by intros [= <-].
  - done.
  - destruct (pair_up seg) as [poly'|]; [|done]. simpl. intros [= <-].
    simpl. rewrite (IH poly' eq_refl). lia.
Qed.

(** X13. [create_binary_mask] on its own: a negative height or width
    raises before the polygon is looked at.  For a height and a width that
    are positive C [int]s and a drawable polygon, an odd number of
    coordinates raises, and
    an even number gives the mask with a 1 in the cells that [cv2.fillPoly]
    paints for the polygon and a 0 in the others; vertices outside the
    image raise nothing. *)
Theorem create_binary_mask_result (seg : list Z) (h w : Z) :
  (h < 0 ∨ w < 0 →
     create_binary_mask seg h w = Raise ValueError_negative_dimensions) ∧
  (extent h → extent w → drawable seg → Nat.Odd (length seg) →
     create_binary_mask seg h w = Raise (ValueError_reshape (length seg))) ∧
  (extent h → extent w → drawable seg → Nat.Even (length seg) →
     ∃ poly mask,
       reshape_pairs seg = Ok poly ∧
       length poly = (length seg / 2)%nat ∧
       create_binary_mask seg h w = Ok mask ∧
       ∀ r c, (r < Z.to_nat h)%nat → (c < Z.to_nat w)%nat →
         cell mask r c
         = Some (if painted poly (Z.of_nat c) (Z.of_nat r) then 1 else 0)).
Proof.
  split_and!.
  - intros Hneg. unfold create_binary_mask, np_zeros.
    destruct (Z.ltb_spec h 0), (Z.ltb_spec w 0); simpl; try done. lia.
  - intros [Hh%Z.lt_le_incl _] [Hw%Z.lt_le_incl _] _ Hodd.
    unfold create_binary_mask.
    rewrite np_zeros_Ok by done. simpl. by rewrite reshape_pairs_odd.
  - intros [Hh%Z.lt_le_incl _] [Hw%Z.lt_le_incl _] _ Heven.
    destruct (reshape_pairs_even seg Heven) as [poly Hpoly].
    destruct (create_binary_mask seg h w) as [mask|e] eqn:Hmask.
    + apply create_binary_mask_Ok in Hmask
        as (poly' & Hpoly' & _ & _ & _ & _ & _ & _ & Hcells).
      assert (poly' = poly) as -> by congruence.
      exists poly, mask. split_and!; [done| |done..].
      rewrite (reshape_pairs_length seg poly Hpoly), Nat.mul_comm.
      by rewrite Nat.div_mul.
    + unfold create_binary_mask in Hmask.
      by rewrite np_zeros_Ok, Hpoly in Hmask by done.
Qed.

(** ** The combined mask *)

Lemma cell_in_range (h w : nat) (a : ndarray) (r c : nat) :
  mask_of_shape h w a → (r < h)%nat → (c < w)%nat →
  ∃ v, cell a r c = Some v ∧ (v = 0 ∨ v = 1).
Proof.
  intros (Hr & Hc & [Hlen Hrows] & Hbin) Hrh Hcw. unfold cell.
  destruct (lookup_lt_is_Some_2 (cells a) r) as [row Hrow]; [lia|].
  rewrite Hrow. simpl.
  pose proof (Forall_lookup_1 _ _ _ _ Hrows Hrow) as Hwidth. simpl in Hwidth.
  destruct (lookup_lt_is_Some_2 row c) as [v Hv]; [lia|].
  exists v. split; [done|].
  pose proof (Forall_lookup_1 _ _ _ _ Hbin Hrow) as Hrowbin.
  by apply (Forall_lookup_1 _ _ _ _ Hrowbin Hv).
Qed.

Lemma bitwise_or_masks (h w : nat) (a b : ndarray) :
  mask_of_shape h w a → mask_of_shape h w b →
  ∃ ab, bitwise_or a b = Ok ab ∧ mask_of_shape h w ab ∧
    ∀ r c, cell ab r c = (x ← cell a r c; y ← cell b r c; Some (Z.lor x y)).
Proof.
  intros (Hra & Hca & [Hlena Hrowsa] & Hbina) (Hrb & Hcb & [Hlenb Hrowsb] & Hbinb).
  unfold bitwise_or. rewrite decide_True by (split; congruence).
  eexists. split; [done|]. split; [split_and!|]; simpl.
  - done.
  - done.
  - split; simpl.
    + rewrite length_zip_with. lia.
    + apply Forall_lookup. intros r row [ra [rb (-> & Ha & Hb)]]%lookup_zip_with_Some.
      rewrite length_zip_with.
      pose proof (Forall_lookup_1 _ _ _ _ Hrowsa Ha) as Hwa.
      pose proof (Forall_lookup_1 _ _ _ _ Hrowsb Hb) as Hwb. simpl in *. lia.
  - unfold binary. simpl.
    apply Forall_lookup. intros r row [ra [rb (-> & Ha & Hb)]]%lookup_zip_with_Some.
    apply Forall_lookup. intros c v [x [y (-> & Hx & Hy)]]%lookup_zip_with_Some.
    pose proof (Forall_lookup_1 _ _ _ _ (Forall_lookup_1 _ _ _ _ Hbina Ha) Hx) as Hx01.
    pose proof (Forall_lookup_1 _ _ _ _ (Forall_lookup_1 _ _ _ _ Hbinb Hb) Hy) as Hy01.
    simpl in *. destruct Hx01 as [-> | ->], Hy01 as [-> | ->]; auto.
  - intros r c. unfold cell. simpl. rewrite lookup_zip_with.
    destruct (cells a !! r) as [ra|]; simpl; [|done].
    destruct (cells b !! r) as [rb|]; simpl.
    + rewrite lookup_zip_with. done.
    + by destruct (ra !! c).
Qed.

(** Or-ing masks of one shape: the result has that shape, and a cell is 1
    exactly when it is 1 in the start value or in one of the masks. *)
Lemma accumulate_from_masks (h w : nat) (masks : list ndarray) :
  Forall (mask_of_shape h w) masks →
  ∀ acc, mask_of_shape h w acc →
  ∃ res, accumulate_from acc masks = Ok res ∧ mask_of_shape h w res ∧
    ∀ r c, (r < h)%nat → (c < w)%nat →
      cell res r c = Some 1 ↔
      cell acc r c = Some 1 ∨ ∃ m, m ∈ masks ∧ cell m r c = Some 1.
Proof.
  induction 1 as [|m masks Hm _ IH]; intros acc Hacc; simpl.
  - exists acc. split_and!; [done..|]. intros r c _ _. split; [by left|].
    intros [?|(m & Hin & _)]; [done|]. by apply elem_of_nil in Hin.
  - destruct (bitwise_or_masks h w acc m Hacc Hm) as (acc' & -> & Hacc' & Hcell).
    simpl. destruct (IH acc' Hacc') as (res & -> & Hres & Hres_cell).
    exists res. split_and!; [done..|]. intros r c Hr Hc.
    rewrite Hres_cell, Hcell by done.
    destruct (cell_in_range h w acc r c Hacc Hr Hc) as (x & -> & Hx).
    destruct (cell_in_range h w m r c Hm Hr Hc) as (y & Hy & Hy01). rewrite Hy.
    simpl. split.
    + intros [Hor|(m' & Hin & Hm')].
      * destruct Hx as [-> | ->]; [|by left]. right. exists m.
        split; [left|]. rewrite Hy. by destruct Hy01 as [-> | ->].
      * right. exists m'. split; [by right|done].
    + intros [[= ->]|(m' & Hin & Hm')].
      * left. by destruct Hy01 as [-> | ->].
      * apply elem_of_cons in Hin as [->|Hin].
        -- left. rewrite Hy in Hm'. injection Hm' as ->.
           by destruct Hx as [-> | ->].
        -- right. by exists m'.
Qed.

Lemma or_polygons_app (acc : ndarray) (segs1 segs2 : list (list Z)) (h w : Z) :
  or_polygons acc (segs1 ++ segs2) h w
  = result_bind (or_polygons acc segs1 h w) (λ acc', or_polygons acc' segs2 h w).
Proof.
  revert acc. induction segs1 as [|seg segs1 IH]; intros acc; simpl; [done|].
  destruct (create_binary_mask seg h w) as [mask|]; simpl; [|done].
  destruct (bitwise_or acc mask) as [acc'|]; simpl; [|done]. apply IH.
Qed.

(** The loop over the annotations is one loop over all their polygons. *)
Lemma or_annotations_all_polygons (acc : ndarray) (anns : list annotation) (h w : Z) :
  or_annotations acc anns h w = or_polygons acc (all_polygons anns) h w.
Proof.
  revert acc. induction anns as [|ann anns IH]; intros acc; simpl; [done|].
  change (all_polygons (ann :: anns)) with (segmentation ann ++ all_polygons anns).
  rewrite or_polygons_app.
  destruct (or_polygons acc (segmentation ann) h w); simpl; [apply IH|done].
Qed.

Lemma create_binary_mask_shape (seg : list Z) (h w : Z) (mask : ndarray) :
  create_binary_mask seg h w = Ok mask →
  mask_of_shape (Z.to_nat h) (Z.to_nat w) mask.
Proof.
  intros (poly & _ & _ & _ & ? & ? & ? & ? & _)%create_binary_mask_Ok. by split_and!.
Qed.

Lemma rasterize_all_Ok (segs : list (list Z)) (h w : Z) (masks : list ndarray) :
  rasterize_all segs h w = Ok masks →
  Forall2 (λ seg mask, create_binary_mask seg h w = Ok mask) segs masks.
Proof.
  revert masks. induction segs as [|seg segs IH]; intros masks; simpl.
  - intros [= <-]. constructor.
  - destruct (create_binary_mask seg h w) as [mask|] eqn:Hmask; simpl; [|done].
    destruct (rasterize_all segs h w) as [masks'|]; simpl; [|done].
    intros [= <-]. constructor; [done|]. by apply IH.
Qed.

(** Interleaving rasterization and or, as the code does, gives what
    rasterizing every polygon first and accumulating afterwards gives. *)
Lemma or_polygons_accumulate (segs : list (list Z)) (h w : Z) (acc : ndarray) :
  mask_of_shape (Z.to_nat h) (Z.to_nat w) acc →
  or_polygons acc segs h w
  = result_bind (rasterize_all segs h w) (accumulate_from acc).
Proof.
  revert acc. induction segs as [|seg segs IH]; intros acc Hacc; simpl; [done|].
  destruct (create_binary_mask seg h w) as [mask|] eqn:Hmask; simpl; [|done].
  apply create_binary_mask_shape in Hmask.
  destruct (bitwise_or_masks _ _ acc mask Hacc Hmask) as (acc' & Hor & Hacc' & _).
  rewrite Hor. simpl. rewrite (IH acc' Hacc').
  destruct (rasterize_all segs h w) as [masks|]; simpl; [|done].
  by rewrite Hor.
Qed.

Lemma mask_of_shape_zeros (h w : nat) :
  mask_of_shape h w
    {| nrows := h; ncols := w; cells := replicate h (replicate w 0) |}.
Proof.
  split_and!; [done..|apply well_shaped_zeros|apply binary_zeros].
Qed.

Lemma Forall2_elem_l {A B} (P : A → B → Prop) (l : list A) (k : list B) (x : A) :
  Forall2 P l k → x ∈ l → ∃ y, y ∈ k ∧ P x y.
Proof.
  induction 1 as [|x' y' l k Hxy _ IH]; intros Hx; [by apply elem_of_nil in Hx|].
  apply elem_of_cons in Hx as [->|Hx].
  - exists y'. split; [left|done].
  - destruct (IH Hx) as (y & Hy & HP). exists y. split; [by right|done].
Qed.

Lemma Forall2_elem_r {A B} (P : A → B → Prop) (l : list A) (k : list B) (y : B) :
  Forall2 P l k → y ∈ k → ∃ x, x ∈ l ∧ P x y.
Proof.
  induction 1 as [|x' y' l k Hxy _ IH]; intros Hy; [by apply elem_of_nil in Hy|].
  apply elem_of_cons in Hy as [->|Hy].
  - exists x'. split; [left|done].
  - destruct (IH Hy) as (x & Hx & HP). exists x. split; [by right|done].
Qed.

(** The mask built for an image of [h] rows and [w] columns from the
    polygons [segs]: the accumulation of their rasters, of that shape, with
    a 1 exactly where some polygon is painted. *)
Lemma combined_mask_spec (segs : list (list Z)) (h w : Z) (mask : ndarray) :
  result_bind (np_zeros h w) (λ zeros, or_polygons zeros segs h w) = Ok mask →
  ∃ masks,
    rasterize_all segs h w = Ok masks ∧
    accumulate h w masks = Ok mask ∧
    0 ≤ h ∧ 0 ≤ w ∧
    mask_of_shape (Z.to_nat h) (Z.to_nat w) mask ∧
    ∀ r c, (r < Z.to_nat h)%nat → (c < Z.to_nat w)%nat →
      cell mask r c = Some 1 ↔
      ∃ seg poly, seg ∈ segs ∧ reshape_pairs seg = Ok poly ∧
                  painted poly (Z.of_nat c) (Z.of_nat r) = true.
Proof.
  intros Hmask. unfold accumulate.
  destruct (np_zeros h w) as [zeros|] eqn:Hz; simpl in Hmask; [|done].
  apply np_zeros_inv in Hz as (Hh & Hw & ->).
  rewrite or_polygons_accumulate in Hmask by apply mask_of_shape_zeros.
  destruct (rasterize_all segs h w) as [masks|] eqn:Hall; simpl in Hmask; [|done].
  exists masks. simpl. split_and!; [done..| |].
  - apply rasterize_all_Ok in Hall.
    destruct (accumulate_from_masks (Z.to_nat h) (Z.to_nat w) masks) with
      (acc := {| nrows := Z.to_nat h; ncols := Z.to_nat w;
                 cells := replicate (Z.to_nat h) (replicate (Z.to_nat w) 0) |})
      as (res & Hres & Hshape & _); [|apply mask_of_shape_zeros|congruence].
    apply (Forall2_Forall_r _ _ _ _ Hall), Forall_forall.
    intros seg _ m. apply create_binary_mask_shape.
  - intros r c Hr Hc. apply rasterize_all_Ok in Hall.
    destruct (accumulate_from_masks (Z.to_nat h) (Z.to_nat w) masks) with
      (acc := {| nrows := Z.to_nat h; ncols := Z.to_nat w;
                 cells := replicate (Z.to_nat h) (replicate (Z.to_nat w) 0) |})
      as (res & Hres & _ & Hcell); [|apply mask_of_shape_zeros|].
    { apply (Forall2_Forall_r _ _ _ _ Hall), Forall_forall.
      intros seg _ m. apply create_binary_mask_shape. }
    assert (res = mask) as -> by congruence.
    rewrite Hcell, cell_zeros by done. split.
    + intros [?|(m & Hm & Hm1)]; [done|].
      destruct (Forall2_elem_r _ _ _ _ Hall Hm) as (seg & Hseg & Hcreate).
      apply create_binary_mask_Ok in Hcreate
        as (poly & Hpoly & _ & _ & _ & _ & _ & _ & Hcells).
      exists seg, poly. split_and!; [done..|].
      rewrite Hcells in Hm1 by done. by destruct (painted _ _ _).
    + intros (seg & poly & Hseg & Hpoly & Hpaint). right.
      destruct (Forall2_elem_l _ _ _ _ Hall Hseg) as (m & Hm & Hcreate).
      exists m. split; [done|].
      apply create_binary_mask_Ok in Hcreate
        as (poly' & Hpoly' & _ & _ & _ & _ & _ & _ & Hcells).
      assert (poly' = poly) as -> by congruence.
      by rewrite Hcells, Hpaint.
Qed.



(** ** Counters and loops *)

Lemma bump_lookup (key k : string) (counts : gmap string nat) :
  bump key counts !!! k = (counts !!! k + if decide (key = k) then 1 else 0)%nat.
Proof.
  unfold bump. case_decide as Hk.
  - subst k. rewrite lookup_total_insert_eq. lia.
  - rewrite lookup_total_insert_ne by done. lia.
Qed.

Lemma iter_bump_lookup (n : nat) (key k : string) (counts : gmap string nat) :
  Nat.iter n (bump key) counts !!! k
  = (counts !!! k + if decide (key = k) then n else 0)%nat.
Proof.
  induction n as [|n IH]; simpl.
  - case_decide; lia.
  - rewrite bump_lookup, IH. case_decide; lia.
Qed.

Lemma for_each_cons {A} (x : A) (l : list A) (body : A → M unit)
    (counts : gmap string nat) :
  for_each (x :: l) body counts =
  match body x counts with
  | (Ok _, counts1, evs1) =>
      match for_each l body counts1 with
      | (r, counts2, evs2) => (r, counts2, evs1 ++ evs2)
      end
  | (Raise e, counts1, evs1) => (Raise e, counts1, evs1)
  end.
Proof. done. Qed.

(** A loop that returns has run every round to its end, each from the
    counts left by the one before. *)
Lemma for_each_Ok_inv {A} (l : list A) (body : A → M unit)
    (counts counts' : gmap string nat) (evs : list event) (u : unit) :
  for_each l body counts = (Ok u, counts', evs) →
  match l with
  | [] => counts' = counts ∧ evs = []
  | x :: l' =>
      ∃ counts1 evs1 evs2,
        body x counts = (Ok tt, counts1, evs1) ∧
        for_each l' body counts1 = (Ok tt, counts', evs2) ∧
        evs = evs1 ++ evs2
  end.
Proof.
  destruct l as [|x l'].
  - intros Hrun. by injection Hrun as _ <- <-.
  - rewrite for_each_cons.
    destruct (body x counts) as [[[[]|e] counts1] evs1]; [|done].
    destruct (for_each l' body counts1) as [[r counts2] evs2] eqn:Hrest.
    intros [= -> <- <-]. destruct u. by exists counts1, evs1, evs2.
Qed.

(** A round that raises whatever the counts are ends the loop with an
    exception, unless an earlier round did so before. *)
Lemma for_each_raises {A} (l : list A) (body : A → M unit) (x : A) :
  x ∈ l →
  (∀ counts, is_Ok (body x counts).1.1 = false) →
  ∀ counts, is_Ok (for_each l body counts).1.1 = false.
Proof.
  intros Hx Hraise. induction l as [|y l IH]; [by apply elem_of_nil in Hx|].
  intros counts. rewrite for_each_cons.
  destruct (body y counts) as [[[[]|e] counts1] evs1] eqn:Hy; [|done].
  apply elem_of_cons in Hx as [->|Hx].
  - specialize (Hraise counts). by rewrite Hy in Hraise.
  - specialize (IH Hx counts1).
    by destruct (for_each l body counts1) as [[r counts2] evs2].
Qed.

(** What is said of the events of every round holds of the events of the
    loop, whether it returns or raises. *)
Lemma for_each_events_Forall {A} (P : event → Prop) (l : list A) (body : A → M unit) :
  (∀ x counts, x ∈ l → Forall P (body x counts).2) →
  ∀ counts, Forall P (for_each l body counts).2.
Proof.
  induction l as [|x l IH]; intros Hbody counts; [constructor|].
  rewrite for_each_cons.
  pose proof (Hbody x counts (list_elem_of_here _ _)) as Hx.
  destruct (body x counts) as [[[[]|e] counts1] evs1]; [|done].
  pose proof (IH (λ y c Hy, Hbody y c (list_elem_of_further _ _ _ Hy)) counts1) as Hl.
  destruct (for_each l body counts1) as [[r counts2] evs2]. simpl in *.
  by apply Forall_app.
Qed.

(** ** The annotation index *)

Lemma fst_append_annotation (idx : list (Z * list annotation)) (ann : annotation) :
  (append_annotation idx ann).*1
  = if decide (image_id ann ∈ idx.*1) then idx.*1 else idx.*1 ++ [image_id ann].
Proof.
  induction idx as [|[k anns] idx IH].
  - destruct (decide (image_id ann ∈ ([] : list (Z * list annotation)).*1))
      as [Hin|_]; [|done].
    by apply elem_of_nil in Hin.
  - cbn [append_annotation]. destruct (decide (k = image_id ann)) as [->|Hk].
    + rewrite decide_True; [done|]. left.
    + rewrite fmap_cons, IH. cbn [fst].
      destruct (decide (image_id ann ∈ idx.*1)) as [Hin|Hin].
      * rewrite decide_True; [done|]. by right.
      * rewrite decide_False; [done|].
        rewrite fmap_cons. cbn [fst]. intros [Heq|Htl]%elem_of_cons; [by apply Hk|].
        by apply Hin.
Qed.

Lemma lookup_append_annotation (idx : list (Z * list annotation)) (ann : annotation) :
  (list_to_map (append_annotation idx ann) : gmap Z (list annotation))
  = <[image_id ann :=
        default [] ((list_to_map idx : gmap Z (list annotation)) !! image_id ann)
        ++ [ann]]> (list_to_map idx).
Proof.
  induction idx as [|[k anns] idx IH]; simpl; [done|].
  destruct (decide (k = image_id ann)) as [->|Hk]; simpl.
  - by rewrite lookup_insert_eq, insert_insert_eq.
  - rewrite IH, lookup_insert_ne by done. by apply insert_insert_ne.
Qed.

Lemma NoDup_append_annotation (idx : list (Z * list annotation)) (ann : annotation) :
  NoDup idx.*1 → NoDup (append_annotation idx ann).*1.
Proof.
  intros Hnd. rewrite fst_append_annotation. case_decide; [done|].
  apply NoDup_app. split_and!; [done| |apply NoDup_singleton].
  intros k Hk ->%list_elem_of_singleton. done.
Qed.

(** The index as a whole: distinct keys, and under each key the
    annotations of that image, in the order of the file. *)
Lemma grouping_spec (anns : list annotation) :
  let idx := fold_left append_annotation anns [] in
  NoDup idx.*1 ∧
  ∀ k, (list_to_map idx : gmap Z (list annotation)) !! k
       = match filter (λ a, image_id a = k) anns with
         | [] => None
         | group => Some group
         end.
Proof.
  cbv zeta. induction anns as [|ann anns IH] using rev_ind.
  - split; [constructor|done].
  - destruct IH as [Hnd Hlook]. rewrite fold_left_app. simpl. split.
    + by apply NoDup_append_annotation.
    + intros k. rewrite lookup_append_annotation, filter_app, filter_cons, filter_nil.
      destruct (decide (image_id ann = k)) as [<-|Hk].
      * rewrite lookup_insert_eq, Hlook.
        by destruct (filter _ anns).
      * rewrite lookup_insert_ne, Hlook, app_nil_r by done. done.
Qed.

Lemma elem_of_image_annotations (coco_data : coco) (iid : Z) (group : list annotation) :
  (iid, group) ∈ image_annotations coco_data ↔
  group = filter (λ a, image_id a = iid) (annotations coco_data) ∧ group ≠ [].
Proof.
  unfold image_annotations.
  destruct (grouping_spec (annotations coco_data)) as [Hnd Hlook].
  rewrite (elem_of_list_to_map (M:=gmap Z)), Hlook by done.
  destruct (filter _ _) as [|a l]; naive_solver.
Qed.

Lemma NoDup_image_annotations (coco_data : coco) :
  NoDup (image_annotations coco_data).*1.
Proof. apply grouping_spec. Qed.

Lemma contains_image_annotations (coco_data : coco) (iid : Z) :
  contains (image_annotations coco_data) iid = true ↔
  ∃ a, a ∈ annotations coco_data ∧ image_id a = iid.
Proof.
  unfold contains. rewrite bool_decide_eq_true, list_elem_of_fmap. split.
  - intros ([k group] & -> & Hin). simpl.
    apply elem_of_image_annotations in Hin as [-> Hne].
    destruct (filter _ _) as [|a l] eqn:Hf; [done|].
    assert (a ∈ filter (λ a, image_id a = k) (annotations coco_data)) as Ha
      by (rewrite Hf; left).
    apply list_elem_of_filter in Ha as [? ?]. eauto.
  - intros (a & Ha & <-).
    exists (image_id a, filter (λ b, image_id b = image_id a) (annotations coco_data)).
    split; [done|]. apply elem_of_image_annotations. split; [done|].
    assert (a ∈ filter (λ b, image_id b = image_id a) (annotations coco_data)) as Hin
      by by apply list_elem_of_filter.
    intros Hnil. rewrite Hnil in Hin. by apply elem_of_nil in Hin.
Qed.

(** ** The set of category ids of an image *)

Lemma elem_of_category_ids (cid : Z) (anns : list annotation) :
  cid ∈ category_ids anns ↔ ∃ a, a ∈ anns ∧ category_id a = cid.
Proof.
  unfold category_ids. rewrite elem_of_list_to_set, list_elem_of_fmap.
  naive_solver.
Qed.

Lemma category_ids_single (cid : Z) (anns : list annotation) :
  anns ≠ [] → (∀ a, a ∈ anns → category_id a = cid) →
  category_ids anns = {[cid]}.
Proof.
  intros Hne Hall. apply set_eq. intros c.
  rewrite elem_of_category_ids, elem_of_singleton. split.
  - intros (a & Ha & <-). by apply Hall.
  - intros ->. destruct anns as [|a anns]; [done|].
    exists a. split; [left|apply Hall; left].
Qed.

Lemma two_categories_size (anns : list annotation) :
  two_categories anns ↔ (1 < size (category_ids anns))%nat.
Proof.
  split.
  - intros (a & b & Ha & Hb & Hab).
    assert (category_id a ∈ category_ids anns) as Ha'
      by (apply elem_of_category_ids; eauto).
    assert (category_id b ∈ category_ids anns) as Hb'
      by (apply elem_of_category_ids; eauto).
    destruct (decide (1 < size (category_ids anns))%nat) as [|Hle]; [done|].
    exfalso. apply Hab.
    assert (size (category_ids anns) ≠ 0%nat) as Hpos.
    { intros H0. apply size_empty_inv in H0. set_solver. }
    apply (size_singleton_inv (category_ids anns)); [lia|done..].
  - intros Hsize.
    destruct (size_pos_elem_of (category_ids anns)) as [x Hx]; [lia|].
    destruct (size_pos_elem_of (category_ids anns ∖ {[x]})) as [y Hy].
    { pose proof (size_difference (category_ids anns) {[x]}) as Hd.
      rewrite size_singleton in Hd. rewrite Hd; [lia|]. set_solver. }
    apply elem_of_difference in Hy as [Hy Hyx].
    apply elem_of_category_ids in Hx as (a & Ha & <-).
    apply elem_of_category_ids in Hy as (b & Hb & <-).
    exists a, b. split_and!; [done..|]. set_solver.
Qed.

Lemma shares_one_category_size (anns : list annotation) :
  anns ≠ [] →
  shares_one_category anns ↔ ¬ (1 < size (category_ids anns))%nat.
Proof.
  intros Hne. split.
  - intros [cid Hall]. rewrite (category_ids_single cid), size_singleton by done.
    lia.
  - intros Hsize. destruct anns as [|a0 anns]; [done|].
    exists (category_id a0). intros a Ha.
    destruct (decide (category_id a = category_id a0)) as [|Hdiff]; [done|].
    exfalso. apply Hsize, two_categories_size.
    exists a, a0. split_and!; [done|left|done].
Qed.

Lemma two_categories_not_shared (anns : list annotation) :
  two_categories anns → ¬ shares_one_category anns.
Proof.
  intros (a & b & Ha & Hb & Hab) [cid Hall].
  apply Hab. by rewrite (Hall a), (Hall b).
Qed.

(** ** One image of the annotation index *)

Section Step.

Variable coco_data : coco.
Variables images_dir output_base_dir : string.

(** The loop body, one decision at a time. *)
Lemma process_image_unfold (iid : Z) (anns : list annotation)
    (counts : gmap string nat) :
  process_image coco_data images_dir output_base_dir (iid, anns) counts =
  let copy_events := copy_events images_dir output_base_dir in
  let mask_events := mask_events output_base_dir in
  let dir_events := dir_events output_base_dir in
  if decide (1 < size (category_ids anns))%nat then
    match image_id_to_file coco_data !! iid with
    | Some f => (Ok tt, counts, [print (Skipping_multiple_classes f)])
    | None => (Raise (KeyError iid), counts, [])
    end
  else
    match elements (category_ids anns) with
    | [] => (Raise KeyError_pop_empty, counts, [])
    | cid :: _ =>
        match category_map coco_data !! cid with
        | None => (Raise (KeyError cid), counts, [])
        | Some name =>
            match image_id_to_file coco_data !! iid with
            | None => (Raise (KeyError iid), counts, dir_events name)
            | Some f =>
                let counts' := bump name counts in
                match image_id_to_size coco_data !! iid with
                | None => (Raise (KeyError iid), counts', copy_events name f)
                | Some (h, w) =>
                    match result_bind (np_zeros h w)
                            (λ zeros, or_annotations zeros anns h w) with
                    | Raise e => (Raise e, counts', copy_events name f)
                    | Ok mask =>
                        (Ok tt, counts', copy_events name f ++ mask_events name f mask)
                    end
                end
            end
        end
    end.
Proof.
  unfold process_image. case_decide.
  - unfold mbind, M_bind, bind, getitem.
    destruct (image_id_to_file coco_data !! iid); done.
  - unfold mbind, M_bind, bind, set_pop, getitem.
    destruct (elements (category_ids anns)) as [|cid ?]; [done|]. simpl.
    destruct (category_map coco_data !! cid) as [name|]; [|done]. simpl.
    destruct (image_id_to_file coco_data !! iid) as [f|]; [|done]. simpl.
    destruct (image_id_to_size coco_data !! iid) as [[h w]|]; [|done]. simpl.
    destruct (np_zeros h w) as [zeros|]; [|done]. simpl.
    destruct (or_annotations zeros anns h w); done.
Qed.

Local Notation "'step'" := (process_image coco_data images_dir output_base_dir).

(** With two category ids the image is passed over: a notice, or a
    [KeyError] when the image id has no file name; nothing else. *)
Lemma process_image_two_categories (iid : Z) (anns : list annotation)
    (counts : gmap string nat) :
  two_categories anns →
  step (iid, anns) counts =
  match image_id_to_file coco_data !! iid with
  | Some f => (Ok tt, counts, [print (Skipping_multiple_classes f)])
  | None => (Raise (KeyError iid), counts, [])
  end.
Proof.
  intros Htwo. rewrite process_image_unfold. cbv zeta.
  by rewrite decide_True by by apply two_categories_size.
Qed.

(** The one category id that [pop] hands out when the test of line 62 lets
    the image through. *)
Lemma elements_category_ids (anns : list annotation) (cid : Z) (rest : list Z) :
  ¬ (1 < size (category_ids anns))%nat →
  elements (category_ids anns) = cid :: rest →
  anns ≠ [] ∧ rest = [] ∧ ∀ a, a ∈ anns → category_id a = cid.
Proof.
  intros Hsize Helems.
  assert (cid ∈ category_ids anns) as Hcid
    by (apply elem_of_elements; rewrite Helems; left).
  assert (anns ≠ []) as Hne by (intros ->; set_solver).
  apply shares_one_category_size in Hsize as [cid' Hall]; [|done].
  rewrite (category_ids_single cid'), elements_singleton in Helems by done.
  injection Helems as -> <-. done.
Qed.

Lemma process_image_outcome (iid : Z) (anns : list annotation)
    (counts counts' : gmap string nat) (r : result unit) (evs : list event) :
  step (iid, anns) counts = (r, counts', evs) →
  step_outcome coco_data images_dir output_base_dir
    iid anns counts r counts' evs.
Proof.
  rewrite process_image_unfold. cbv zeta. case_decide as Hsize.
  - apply two_categories_size in Hsize.
    destruct (image_id_to_file coco_data !! iid) as [f|] eqn:Hf;
      intros [= <- <- <-]; by constructor.
  - destruct (elements (category_ids anns)) as [|cid rest] eqn:Helems.
    { intros [= <- <- <-]. constructor.
      apply elements_empty_inv in Helems.
      destruct anns as [|a anns]; [done|]. exfalso.
      assert (category_id a ∈ category_ids (a :: anns)) as Hin
        by (apply elem_of_category_ids; exists a; split; [left|done]).
      set_solver. }
    apply (elements_category_ids _ _ _ Hsize) in Helems as (Hne & -> & Hall).
    destruct (category_map coco_data !! cid) as [name|] eqn:Hname;
      [|intros [= <- <- <-]; by econstructor].
    destruct (image_id_to_file coco_data !! iid) as [f|] eqn:Hf;
      [|intros [= <- <- <-]; by econstructor].
    destruct (image_id_to_size coco_data !! iid) as [[h w]|] eqn:Hhw;
      [|intros [= <- <- <-]; by econstructor].
    destruct (result_bind _ _) as [mask|e] eqn:Hmask;
      intros [= <- <- <-]; by econstructor.
Qed.

(** Whether a round raises does not depend on the counts. *)
Lemma process_image_raises_always (item : Z * list annotation)
    (counts1 counts2 : gmap string nat) :
  is_Ok (step item counts1).1.1 = is_Ok (step item counts2).1.1.
Proof.
  destruct item as [iid anns]. rewrite !process_image_unfold. cbv zeta.
  case_decide.
  - by destruct (image_id_to_file coco_data !! iid).
  - destruct (elements (category_ids anns)) as [|cid ?]; [done|].
    destruct (category_map coco_data !! cid) as [name|]; [|done].
    destruct (image_id_to_file coco_data !! iid) as [f|]; [|done]. cbv zeta.
    destruct (image_id_to_size coco_data !! iid) as [[h w]|]; [|done].
    by destruct (result_bind _ _).
Qed.

(** *** The two loops and the summary *)

Lemma for_each_emit {A} (l : list A) (f : A → event) (counts : gmap string nat) :
  for_each l (λ x, emit (f x)) counts = (Ok tt, counts, f <$> l).
Proof.
  induction l as [|x l IH]; [done|].
  rewrite for_each_cons. unfold emit at 1. by rewrite IH.
Qed.

Lemma print_summary_unfold (counts : gmap string nat) :
  print_summary counts = (Ok tt, counts, summary_events counts).
Proof.
  cbv [print_summary mbind M_bind bind get_counts emit].
  change (λ (item : string * nat) (counts0 : gmap string nat),
            (Ok (), counts0, [print (Summary_line item.1 item.2)]))
    with (λ item : string * nat, emit (print (Summary_line item.1 item.2))).
  by rewrite for_each_emit.
Qed.

Lemma move_unlabeled_unfold (img : image) (counts : gmap string nat) :
  move_unlabeled coco_data images_dir output_base_dir img counts =
  if contains (image_annotations coco_data) (img_id img)
  then (Ok tt, counts, [])
  else (Ok tt, bump "clean" counts, clean_events images_dir output_base_dir img).
Proof. unfold move_unlabeled. by destruct (contains _ _). Qed.

(** The first loop never raises: one copy and one count per record without
    annotations, in the order of the records. *)
Lemma for_each_move_unlabeled (imgs : list image) (counts : gmap string nat) :
  let unlabeled :=
    filter (λ img, contains (image_annotations coco_data) (img_id img) = false)
      imgs in
  for_each imgs (move_unlabeled coco_data images_dir output_base_dir) counts
  = (Ok tt, Nat.iter (length unlabeled) (bump "clean") counts,
     unlabeled ≫= clean_events images_dir output_base_dir).
Proof.
  cbv zeta. revert counts. induction imgs as [|img imgs IH]; intros counts; [done|].
  rewrite for_each_cons, move_unlabeled_unfold, filter_cons.
  destruct (contains _ _) eqn:Hc.
  - rewrite decide_False by done. by rewrite IH.
  - rewrite decide_True by done. rewrite IH. cbn [length].
    by rewrite Nat.iter_succ_r.
Qed.

Lemma run_unfold (counts0 : gmap string nat) :
  run coco_data images_dir output_base_dir counts0 =
  let unlabeled := unlabeled_images coco_data in
  let counts1 := Nat.iter (length unlabeled) (bump "clean") counts0 in
  let evs1 := makedirs (clean_dir output_base_dir)
              :: (unlabeled ≫= clean_events images_dir output_base_dir) in
  match for_each (image_annotations coco_data) step counts1 with
  | (Ok _, counts2, evs2) =>
      (Ok counts2, counts2, evs1 ++ evs2 ++ summary_events counts2)
  | (Raise e, counts2, evs2) => (Raise e, counts2, evs1 ++ evs2)
  end.
Proof.
  unfold run, mbind, M_bind, bind. unfold emit at 1.
  rewrite for_each_move_unlabeled. cbv zeta. fold (unlabeled_images coco_data).
  destruct (for_each (image_annotations coco_data) _ _) as [[[[]|e] counts2] evs2];
    [|done].
  rewrite print_summary_unfold. unfold get_counts. simpl.
  by rewrite app_nil_r.
Qed.

(** *** Counting *)

Lemma class_of_two_categories (anns : list annotation) :
  two_categories anns → class_of coco_data anns = None.
Proof.
  intros Htwo. unfold class_of.
  by rewrite decide_True by by apply two_categories_size.
Qed.

Lemma class_of_shared (anns : list annotation) (cid : Z) :
  anns ≠ [] → (∀ a, a ∈ anns → category_id a = cid) →
  class_of coco_data anns = category_map coco_data !! cid.
Proof.
  intros Hne Hall. unfold class_of.
  rewrite (category_ids_single cid), size_singleton, elements_singleton by done.
  rewrite decide_False by lia. done.
Qed.

(** [class_of] in words: the annotations share one category id, and that
    id has this name. *)
Lemma class_of_Some (anns : list annotation) (name : string) :
  anns ≠ [] →
  class_of coco_data anns = Some name ↔
  ∃ cid, (∀ a, a ∈ anns → category_id a = cid) ∧
         category_map coco_data !! cid = Some name.
Proof.
  intros Hne. split.
  - intros Hclass.
    destruct (decide (1 < size (category_ids anns))%nat) as [Hsize|Hsize].
    { by rewrite class_of_two_categories in Hclass by by apply two_categories_size. }
    apply shares_one_category_size in Hsize as [cid Hall]; [|done].
    exists cid. split; [done|]. by rewrite <- (class_of_shared anns cid).
  - intros (cid & Hall & Hname). by rewrite (class_of_shared anns cid).
Qed.

Lemma finished_copy_events (k name f : string) :
  sum_list_with (finished k) (copy_events images_dir output_base_dir name f) = 0%nat.
Proof. done. Qed.

Lemma finished_mask_events (k name f : string) (mask : ndarray) :
  sum_list_with (finished k) (mask_events output_base_dir name f mask)
  = if decide (name = k) then 1%nat else 0%nat.
Proof. simpl. case_decide; lia. Qed.

Lemma finished_clean_events (k : string) (imgs : list image) :
  sum_list_with (finished k) (imgs ≫= clean_events images_dir output_base_dir)
  = if decide ("clean" = k) then length imgs else 0%nat.
Proof.
  induction imgs as [|img imgs IH]; [by case_decide|].
  cbn [mbind list_bind length]. rewrite sum_list_with_app, IH. simpl.
  case_decide; lia.
Qed.

Lemma finished_summary_events (k : string) (counts : gmap string nat) :
  sum_list_with (finished k) (summary_events counts) = 0%nat.
Proof.
  unfold summary_events. rewrite !sum_list_with_app.
  assert (sum_list_with (finished k)
            ((λ item, print (Summary_line item.1 item.2)) <$> sorted_items counts)
          = 0%nat) as ->; [|done].
  induction (sorted_items counts) as [|item items IH]; [done|].
  rewrite fmap_cons. cbn [sum_list_with]. by rewrite IH.
Qed.

(** A round that returns has counted the image once under its class, or
    not at all when it has none; the notice [Processed] tells which. *)
Lemma process_image_Ok_counts (iid : Z) (anns : list annotation)
    (counts counts' : gmap string nat) (evs : list event) (k : string) :
  step (iid, anns) counts = (Ok tt, counts', evs) →
  let once := if decide (class_of coco_data anns = Some k) then 1%nat else 0%nat in
  counts' !!! k = (counts !!! k + once)%nat ∧
  sum_list_with (finished k) evs = once.
Proof.
  intros Hstep. apply process_image_outcome in Hstep. cbv zeta.
  inversion Hstep as [f Htwo Hf| | | | | | |cid name f h w mask Hne Hall Hname Hf Hhw Hmask];
    simplify_eq.
  - rewrite class_of_two_categories by done.
    rewrite decide_False by discriminate. split; [lia|done].
  - rewrite (class_of_shared anns cid), Hname by done.
    rewrite bump_lookup, sum_list_with_app, finished_copy_events, finished_mask_events.
    destruct (decide (name = k)) as [->|Hk].
    + rewrite decide_True by done. split; [done|]. simpl. lia.
    + rewrite decide_False by (by intros [= ->]). split; [done|]. simpl. lia.
Qed.

Lemma for_each_process_image_counts (items : list (Z * list annotation))
    (counts counts' : gmap string nat) (evs : list event) (k : string) :
  for_each items step counts = (Ok tt, counts', evs) →
  let n := length (filter (λ item, class_of coco_data item.2 = Some k) items) in
  counts' !!! k = (counts !!! k + n)%nat ∧ sum_list_with (finished k) evs = n.
Proof.
  cbv zeta. revert counts evs.
  induction items as [|[iid anns] items IH]; intros counts evs Hloop;
    apply for_each_Ok_inv in Hloop.
  - destruct Hloop as [-> ->]. simpl. split; [lia|done].
  - destruct Hloop as (counts1 & evs1 & evs2 & Hstep & Hrest & ->).
    apply (process_image_Ok_counts _ _ _ _ _ k) in Hstep as [Hc1 He1].
    apply IH in Hrest as [Hc2 He2].
    rewrite Hc2, Hc1, sum_list_with_app, He1, He2, filter_cons. simpl.
    case_decide; simpl; lia.
Qed.

(** A loop that returns has run the body on each element, and the events
    of that round are in the events of the loop. *)
Lemma for_each_Ok_elem {A} (l : list A) (body : A → M unit) (x : A)
    (counts counts' : gmap string nat) (evs : list event) :
  for_each l body counts = (Ok tt, counts', evs) → x ∈ l →
  ∃ countsx countsx' evsx,
    body x countsx = (Ok tt, countsx', evsx) ∧ ∀ ev, ev ∈ evsx → ev ∈ evs.
Proof.
  revert counts evs. induction l as [|y l IH]; intros counts evs Hloop Hx;
    [by apply elem_of_nil in Hx|].
  apply for_each_Ok_inv in Hloop as (counts1 & evs1 & evs2 & Hy & Hrest & ->).
  apply elem_of_cons in Hx as [->|Hx].
  - exists counts, counts1, evs1. split; [done|].
    intros ev Hev. apply elem_of_app. by left.
  - destruct (IH _ _ Hrest Hx) as (cx & cx' & evsx & Hbody & Hsub).
    exists cx, cx', evsx. split; [done|].
    intros ev Hev. apply elem_of_app. right. by apply Hsub.
Qed.

(** *** The whole call *)

Local Notation "'call'" := (process_coco_dataset coco_data images_dir output_base_dir).
Local Notation "'first_events'" :=
  (makedirs (clean_dir output_base_dir)
   :: (unlabeled_images coco_data ≫= clean_events images_dir output_base_dir)).
Local Notation "'first_counts'" :=
  (Nat.iter (length (unlabeled_images coco_data)) (bump "clean") ∅).

Lemma call_Returned (counts : gmap string nat) (log : list event) :
  call = Returned counts log →
  ∃ evs, for_each (image_annotations coco_data) step first_counts
           = (Ok tt, counts, evs) ∧
         log = first_events ++ evs ++ summary_events counts.
Proof.
  unfold process_coco_dataset. rewrite run_unfold. cbv zeta.
  destruct (for_each _ _ _) as [[[[]|e] counts2] evs2]; [|done].
  intros [= <- <-]. by exists evs2.
Qed.

Lemma call_events :
  ∃ rest, events_of call = first_events ++ rest.
Proof.
  unfold process_coco_dataset. rewrite run_unfold. cbv zeta.
  destruct (for_each _ _ _) as [[[[]|e] counts2] evs2]; simpl; eauto.
Qed.

(** An entry of the index whose round always raises keeps the call from
    returning. *)
Lemma call_Raised (item : Z * list annotation) :
  item ∈ image_annotations coco_data →
  (∀ counts, is_Ok (step item counts).1.1 = false) →
  ∃ e log, call = Raised e log.
Proof.
  intros Hin Hraise. unfold process_coco_dataset. rewrite run_unfold. cbv zeta.
  pose proof (for_each_raises _ _ _ Hin Hraise first_counts) as Hloop.
  destruct (for_each _ _ _) as [[[[]|e] counts2] evs2]; [done|]. eauto.
Qed.

(** The returned counts, class by class: the images of that class, and for
    the key "clean" the unlabeled images as well; the log holds as many
    closing notices. *)
Lemma returned_counts (counts : gmap string nat) (log : list event) (k : string) :
  call = Returned counts log →
  counts !!! k
  = ((if decide ("clean" = k) then length (unlabeled_images coco_data) else 0)
     + length (images_of_class coco_data k))%nat ∧
  sum_list_with (finished k) log = counts !!! k.
Proof.
  intros (evs & Hloop & ->)%call_Returned.
  apply (for_each_process_image_counts _ _ _ _ k) in Hloop as [Hcounts Hevs].
  rewrite iter_bump_lookup, lookup_total_empty in Hcounts.
  rewrite !sum_list_with_app, Hevs, finished_summary_events.
  cbn [sum_list_with finished]. rewrite finished_clean_events.
  unfold images_of_class. rewrite Hcounts. simpl.
  split; [done|]. case_decide; lia.
Qed.

Lemma elem_of_summary_events (counts : gmap string nat) (k : string) (n : nat) :
  print (Summary_line k n) ∈ summary_events counts ↔ counts !! k = Some n.
Proof.
  unfold summary_events. rewrite !elem_of_app, list_elem_of_fmap. split.
  - intros [Hin|[([k' n'] & [= -> ->] & Hin)|Hin]].
    + apply elem_of_cons in Hin as [?|Hin]; [done|].
      apply elem_of_cons in Hin as [?|Hin]; [done|]. by apply elem_of_nil in Hin.
    + unfold sorted_items in Hin. rewrite merge_sort_Permutation in Hin.
      by apply elem_of_map_to_list in Hin.
    + apply elem_of_cons in Hin as [?|Hin]; [done|].
      apply elem_of_cons in Hin as [?|Hin]; [done|]. by apply elem_of_nil in Hin.
  - intros Hk. right. left. exists (k, n). split; [done|].
    unfold sorted_items. rewrite merge_sort_Permutation.
    by apply elem_of_map_to_list.
Qed.

(** *** The lookup tables *)

(** A dict comprehension keeps, for each key, the value of the last element
    with that key. *)
Lemma comprehension_lookup {A V} (key : A → Z) (val : A → V) (l : list A)
    (d0 : gmap Z V) (k : Z) :
  fold_left (λ d x, <[key x := val x]> d) l d0 !! k
  = match last (filter (λ x, key x = k) l) with
    | Some x => Some (val x)
    | None => d0 !! k
    end.
Proof.
  induction l as [|x l IH] using rev_ind; [done|].
  rewrite fold_left_app, filter_app, filter_cons, filter_nil. simpl.
  destruct (decide (key x = k)) as [<-|Hk].
  - by rewrite lookup_insert_eq, last_snoc.
  - by rewrite lookup_insert_ne, app_nil_r.
Qed.

Lemma image_id_to_file_lookup (k : Z) :
  image_id_to_file coco_data !! k
  = file_name <$> last (filter (λ img, img_id img = k) (images coco_data)).
Proof.
  unfold image_id_to_file. rewrite comprehension_lookup.
  by destruct (last _).
Qed.

Lemma image_id_to_size_lookup (k : Z) :
  image_id_to_size coco_data !! k
  = (λ img, (height img, width img))
      <$> last (filter (λ img, img_id img = k) (images coco_data)).
Proof.
  unfold image_id_to_size. rewrite comprehension_lookup.
  by destruct (last _).
Qed.

Lemma category_map_lookup (k : Z) :
  category_map coco_data !! k
  = cat_name <$> last (filter (λ cat, cat_id cat = k) (categories coco_data)).
Proof.
  unfold category_map. rewrite comprehension_lookup.
  by destruct (last _).
Qed.

(** The entries counted under a class, in words. *)
Lemma elem_of_images_of_class (k : string) (iid : Z) (anns : list annotation) :
  (iid, anns) ∈ images_of_class coco_data k ↔
  (iid, anns) ∈ image_annotations coco_data ∧
  ∃ cid, (∀ a, a ∈ anns → category_id a = cid) ∧
         category_map coco_data !! cid = Some k.
Proof.
  unfold images_of_class. rewrite list_elem_of_filter. simpl. split.
  - intros [Hclass Hin]. split; [done|].
    apply class_of_Some; [|done]. by apply elem_of_image_annotations in Hin as [_ ?].
  - intros [Hin Hcid]. split; [|done].
    apply class_of_Some; [|done]. by apply elem_of_image_annotations in Hin as [_ ?].
Qed.

(** ** The claims on partitioning and counting *)

(** The round of an entry with one category id, when the category and the
    image have a record, the recorded size is not negative and every
    polygon can be reshaped into pairs: the round does all of its work. *)
Lemma round_assigns (iid cid : Z) (anns : list annotation) (cat : category)
    (img : image) (counts : gmap string nat) :
  anns ≠ [] → (∀ a, a ∈ anns → category_id a = cid) →
  last (filter (λ cat, cat_id cat = cid) (categories coco_data)) = Some cat →
  last (filter (λ img, img_id img = iid) (images coco_data)) = Some img →
  0 ≤ height img → 0 ≤ width img →
  (∀ seg, seg ∈ all_polygons anns → Nat.Even (length seg)) →
  ∃ mask,
    step (iid, anns) counts
    = (Ok tt, bump (cat_name cat) counts,
       copy_events images_dir output_base_dir (cat_name cat) (file_name img)
       ++ mask_events output_base_dir (cat_name cat) (file_name img) mask).
Proof.
  intros Hne Hall Hcat Himg Hh Hw Heven.
  assert (∃ mask, result_bind (np_zeros (height img) (width img))
            (λ zeros, or_annotations zeros anns (height img) (width img))
          = Ok mask) as [mask Hmask].
  { rewrite np_zeros_Ok by done. cbn [result_bind].
    rewrite or_annotations_all_polygons.
    rewrite or_polygons_accumulate by apply mask_of_shape_zeros.
    assert (∃ masks, rasterize_all (all_polygons anns) (height img) (width img)
                     = Ok masks ∧
              Forall (mask_of_shape (Z.to_nat (height img)) (Z.to_nat (width img)))
                masks) as (masks & -> & Hmasks).
    { induction (all_polygons anns) as [|seg segs IH]; [by exists []|].
      destruct IH as (masks & Hrest & Hmasks).
      { intros seg' Hseg'. apply Heven. by right. }
      destruct (reshape_pairs_even seg) as [poly Hpoly]; [apply Heven; left|].
      destruct (create_binary_mask seg (height img) (width img))
        as [mask|e] eqn:Hmask.
      - exists (mask :: masks). simpl. rewrite Hmask, Hrest. split; [done|].
        constructor; [|done]. by apply create_binary_mask_shape in Hmask.
      - unfold create_binary_mask in Hmask.
        by rewrite np_zeros_Ok, Hpoly in Hmask by done. }
    cbn [result_bind].
    destruct (accumulate_from_masks _ _ masks Hmasks _
                (mask_of_shape_zeros (Z.to_nat (height img))
                   (Z.to_nat (width img))))
      as (res & Hres & _).
    by exists res. }
  exists mask. rewrite process_image_unfold. cbv zeta.
  rewrite (category_ids_single cid), size_singleton, elements_singleton by done.
  rewrite decide_False by lia.
  rewrite category_map_lookup, Hcat, image_id_to_file_lookup, Himg.
  rewrite image_id_to_size_lookup, Himg. cbn [fmap option_fmap option_map].
  by rewrite Hmask.
Qed.

(** C1. An entry of the annotation index has either one category id on all
    its annotations or two annotations with different ids.  With two ids
    the round changes no count and emits at most the skip notice: no
    directory, no copy, no mask.  With one id that belongs to a category
    record, an image record whose height and width are positive C [int]s
    and drawable polygons with an even number of coordinates, the round
    returns and has
    assigned the image to the class of that record: directories, copy,
    count, mask.  A round that returns has assigned the image exactly when
    all annotations share one category id. *)
Theorem assigned_iff_one_category (iid : Z) (anns : list annotation)
    (counts counts' : gmap string nat) (r : result unit) (evs : list event) :
  (iid, anns) ∈ image_annotations coco_data →
  step (iid, anns) counts = (r, counts', evs) →
  (shares_one_category anns ∨ two_categories anns) ∧
  (two_categories anns →
     counts' = counts ∧
     ∀ ev, ev ∈ evs → ∃ f, ev = print (Skipping_multiple_classes f)) ∧
  (∀ cid cat img,
     (∀ a, a ∈ anns → category_id a = cid) →
     last (filter (λ cat, cat_id cat = cid) (categories coco_data)) = Some cat →
     last (filter (λ img, img_id img = iid) (images coco_data)) = Some img →
     extent (height img) → extent (width img) →
     (∀ seg, seg ∈ all_polygons anns → drawable seg ∧ Nat.Even (length seg)) →
     r = Ok tt ∧
     ∃ mask,
       counts' = bump (cat_name cat) counts ∧
       evs = copy_events images_dir output_base_dir (cat_name cat) (file_name img)
             ++ mask_events output_base_dir (cat_name cat) (file_name img) mask) ∧
  (r = Ok tt →
     shares_one_category anns ↔
     ∃ name f mask,
       counts' = bump name counts ∧
       evs = copy_events images_dir output_base_dir name f
             ++ mask_events output_base_dir name f mask).
Proof.
  intros Hin Hstep. apply elem_of_image_annotations in Hin as [_ Hne].
  split_and!.
  - destruct (decide (1 < size (category_ids anns))%nat) as [Hsize|Hsize].
    + right. by apply two_categories_size.
    + left. by apply shares_one_category_size.
  - intros Htwo. rewrite process_image_two_categories in Hstep by done.
    destruct (image_id_to_file coco_data !! iid) as [f|];
      injection Hstep as <- <- <-.
    + split; [done|]. intros ev ->%list_elem_of_singleton. by exists f.
    + split; [done|]. intros ev Hev. by apply elem_of_nil in Hev.
  - intros cid cat img Hall Hcat Himg [Hh%Z.lt_le_incl _] [Hw%Z.lt_le_incl _] Hsegs.
    destruct (round_assigns iid cid anns cat img counts) as [mask Hok];
      [done..| |].
    { intros seg Hseg. by apply Hsegs. }
    rewrite Hok in Hstep. injection Hstep as <- <- <-.
    split; [done|]. by exists mask.
  - intros ->. apply process_image_outcome in Hstep.
    inversion Hstep as [f Htwo Hf| | | | | | |cid name f h w mask _ Hall Hname Hf Hhw Hmask];
      simplify_eq.
    + split.
      * intros Hone. by apply two_categories_not_shared in Htwo.
      * intros (name & f' & mask & _ & Hevs). done.
    + split; [|by exists cid]. intros _. by exists name, f, mask.
Qed.

(** C2. For an image that is assigned to a class, the array handed to
    [cv2.imwrite] is 255 times the combined mask; the combined mask is the
    accumulation (cell-wise or, from the zero array) of the rasters of all
    polygons of all annotations of the image; it has the height and width
    recorded for the image, holds only zeros and ones, and holds a one
    exactly where some polygon is painted. *)
Theorem combined_mask_is_union (iid : Z) (anns : list annotation)
    (counts counts' : gmap string nat) (evs : list event) :
  step (iid, anns) counts = (Ok tt, counts', evs) →
  shares_one_category anns →
  ∃ name f img masks mask,
    last (filter (λ img, img_id img = iid) (images coco_data)) = Some img ∧
    evs = copy_events images_dir output_base_dir name f
          ++ mask_events output_base_dir name f mask ∧
    rasterize_all (all_polygons anns) (height img) (width img) = Ok masks ∧
    accumulate (height img) (width img) masks = Ok mask ∧
    0 ≤ height img ∧ 0 ≤ width img ∧
    nrows mask = Z.to_nat (height img) ∧ ncols mask = Z.to_nat (width img) ∧
    well_shaped mask ∧ binary mask ∧
    ∀ r c, (r < Z.to_nat (height img))%nat → (c < Z.to_nat (width img))%nat →
      cell mask r c = Some 1 ↔
      ∃ seg poly, seg ∈ all_polygons anns ∧ reshape_pairs seg = Ok poly ∧
                  painted poly (Z.of_nat c) (Z.of_nat r) = true.
Proof.
  intros Hstep Hone. apply process_image_outcome in Hstep.
  inversion Hstep as [f Htwo Hf| | | | | | |cid name f h w mask Hne Hall Hname Hf Hhw Hmask];
    simplify_eq.
  { by apply two_categories_not_shared in Htwo. }
  rewrite image_id_to_size_lookup in Hhw.
  destruct (last _) as [img|] eqn:Himg; [|done]. injection Hhw as <- <-.
  assert (result_bind (np_zeros (height img) (width img))
            (λ zeros, or_polygons zeros (all_polygons anns) (height img) (width img))
          = Ok mask) as Hmask'.
  { rewrite <- Hmask. destruct (np_zeros _ _); simpl; [|done].
    by rewrite or_annotations_all_polygons. }
  apply combined_mask_spec in Hmask'
    as (masks & Hrast & Hacc & Hh & Hw & (Hr & Hc & Hwell & Hbin) & Hcell).
  exists name, f, img, masks, mask. by split_and!.
Qed.

(** C6 (amended). The tables are built without any check.  For a repeated
    image or category id the last record wins; an annotation is grouped
    under its image id whether or not an image record has that id.  An
    entry of the index whose image id has no file name makes its round, and
    with it the call, end in a [KeyError].  An image with two category ids
    is skipped without looking at the category table. *)
Theorem tables_are_built_unchecked :
  (∀ k, image_id_to_file coco_data !! k
        = file_name <$> last (filter (λ img, img_id img = k) (images coco_data))) ∧
  (∀ k, category_map coco_data !! k
        = cat_name <$> last (filter (λ cat, cat_id cat = k) (categories coco_data))) ∧
  (∀ iid group,
     (iid, group) ∈ image_annotations coco_data ↔
     group = filter (λ a, image_id a = iid) (annotations coco_data) ∧ group ≠ []) ∧
  (∀ iid anns,
     (iid, anns) ∈ image_annotations coco_data →
     image_id_to_file coco_data !! iid = None →
     (∀ counts, ∃ key counts' evs,
        step (iid, anns) counts = (Raise (KeyError key), counts', evs)) ∧
     ∃ e log, call = Raised e log) ∧
  (∀ iid anns f counts,
     two_categories anns →
     image_id_to_file coco_data !! iid = Some f →
     step (iid, anns) counts
     = (Ok tt, counts, [print (Skipping_multiple_classes f)])).
Proof.
  split_and!.
  - apply image_id_to_file_lookup.
  - apply category_map_lookup.
  - apply elem_of_image_annotations.
  - intros iid anns Hin Hfile.
    assert (∀ counts, ∃ key counts' evs,
              step (iid, anns) counts = (Raise (KeyError key), counts', evs))
      as Hraise.
    { intros counts.
      destruct (step (iid, anns) counts) as [[r counts'] evs] eqn:Hstep.
      apply elem_of_image_annotations in Hin as [_ Hne].
      apply process_image_outcome in Hstep.
      inversion Hstep; simplify_eq; eauto. }
    split; [done|]. apply (call_Raised _ Hin). intros counts.
    destruct (Hraise counts) as (key & counts' & evs & ->). done.
  - intros iid anns f counts Htwo Hfile.
    by rewrite process_image_two_categories, Hfile.
Qed.

(** The events of a round belong to the work on the annotated images. *)
Lemma labeled_round (item : Z * list annotation) (counts : gmap string nat) :
  item ∈ image_annotations coco_data →
  Forall (labeled_event coco_data images_dir output_base_dir) (step item counts).2.
Proof.
  destruct item as [iid anns]. intros Hin.
  pose proof Hin as [_ Hne]%elem_of_image_annotations.
  assert (∀ cid name, (∀ a, a ∈ anns → category_id a = cid) →
            category_map coco_data !! cid = Some name →
            class_of coco_data anns = Some name) as Hclass.
  { intros cid name Hall Hname. by rewrite (class_of_shared anns cid). }
  destruct (step (iid, anns) counts) as [[r counts'] evs] eqn:Hstep.
  apply process_image_outcome in Hstep. cbn [snd].
  inversion Hstep
    as [f Htwo Hf|Htwo Hf| |cid _ Hall Hname|cid name _ Hall Hname Hf
        |cid name f _ Hall Hname Hf Hhw|cid name f h w e' _ Hall Hname Hf Hhw Hmask
        |cid name f h w mask _ Hall Hname Hf Hhw Hmask];
    simplify_eq;
    cbv [copy_events mask_events dir_events]; cbn [app];
    repeat (apply Forall_cons; split); try apply Forall_nil;
    cbn [labeled_event]; try done.
  all: try (exists (iid, anns), name; split_and!;
            [done|by apply (Hclass cid)|unfold dir_events; by (left || (right; left))]).
  all: exists (iid, anns), name, f; split_and!; [done|by apply (Hclass cid)|done..].
Qed.

Lemma labeled_summary (counts : gmap string nat) :
  Forall (labeled_event coco_data images_dir output_base_dir) (summary_events counts).
Proof.
  unfold summary_events. repeat (apply Forall_app; split).
  - by repeat constructor.
  - apply Forall_forall. by intros ev (item & -> & _)%list_elem_of_fmap.
  - by repeat constructor.
Qed.

Lemma moved_clean_events (imgs : list image) :
  omap moved (imgs ≫= clean_events images_dir output_base_dir) = file_name <$> imgs.
Proof.
  induction imgs as [|img imgs IH]; [done|].
  cbn [mbind list_bind]. rewrite omap_app, IH. done.
Qed.

Lemma moved_labeled (evs : list event) :
  Forall (labeled_event coco_data images_dir output_base_dir) evs →
  omap moved evs = [].
Proof.
  induction 1 as [|ev evs Hev _ IH]; [done|].
  cbn [omap list_omap]. rewrite IH.
  destruct ev as [| | |[]]; done.
Qed.

(** C3. An image record whose id is no key of the index is copied once to
    the clean directory and counted once under "clean"; the first loop does
    this for every such record, in order, and never raises.  On the whole
    log of a call, whether it returns or raises: these events open the log,
    one copy and one notice per such record, and every later event belongs
    to the work on an annotated image or to the summary, so that the
    notices on unlabeled images in the log are those of the unlabeled
    records, once each and in order, and every mask in the log is the mask
    of an entry of the index, whose image id is the id of no unlabeled
    record.  A call that returns has counted under "clean" the unlabeled
    records and the entries of a category of that name. *)
Theorem unlabeled_images_go_to_clean :
  (∀ img counts,
     contains (image_annotations coco_data) (img_id img) = false →
     move_unlabeled coco_data images_dir output_base_dir img counts
     = (Ok tt, bump "clean" counts,
        [ copy2 (path_join images_dir (file_name img))
                (path_join (path_join output_base_dir "clean") (file_name img));
          print (Moved_unlabeled (file_name img)) ])) ∧
  (∀ counts, ∃ counts',
     for_each (images coco_data)
       (move_unlabeled coco_data images_dir output_base_dir) counts
     = (Ok tt, counts',
        unlabeled_images coco_data ≫= clean_events images_dir output_base_dir) ∧
     counts' !!! "clean"
     = (counts !!! "clean" + length (unlabeled_images coco_data))%nat) ∧
  (∃ rest,
     events_of call = first_events ++ rest ∧
     Forall (labeled_event coco_data images_dir output_base_dir) rest) ∧
  omap moved (events_of call) = file_name <$> unlabeled_images coco_data ∧
  (∀ path mask, imwrite path mask ∈ events_of call →
     ∃ iid anns name f,
       (iid, anns) ∈ image_annotations coco_data ∧
       class_of coco_data anns = Some name ∧
       image_id_to_file coco_data !! iid = Some f ∧
       path = path_join (path_join (path_join output_base_dir name) "masks")
                (splitext_root f +:+ ".png") ∧
       ∀ img, img ∈ unlabeled_images coco_data → img_id img ≠ iid) ∧
  (∀ counts log, call = Returned counts log →
     counts !!! "clean"
     = (length (unlabeled_images coco_data)
        + length (images_of_class coco_data "clean"))%nat).
Proof.
  assert (∃ rest,
            events_of call = first_events ++ rest ∧
            Forall (labeled_event coco_data images_dir output_base_dir) rest)
    as (rest & Hlog & Hrest).
  { unfold process_coco_dataset. rewrite run_unfold. cbv zeta.
    pose proof (for_each_events_Forall
                  (labeled_event coco_data images_dir output_base_dir)
                  (image_annotations coco_data) step
                  (λ item counts Hin, labeled_round item counts Hin) first_counts)
      as Hloop.
    destruct (for_each _ _ _) as [[[[]|e] counts2] evs2];
      cbn [events_of snd] in *.
    - exists (evs2 ++ summary_events counts2). split; [done|].
      apply Forall_app. split; [done|apply labeled_summary].
    - by exists evs2. }
  split_and!.
  - intros img counts Hc. by rewrite move_unlabeled_unfold, Hc.
  - intros counts. eexists. split; [apply for_each_move_unlabeled|].
    fold (unlabeled_images coco_data). rewrite iter_bump_lookup.
    by rewrite decide_True.
  - by exists rest.
  - rewrite Hlog.
    change first_events with
      ([makedirs (clean_dir output_base_dir)]
       ++ (unlabeled_images coco_data ≫= clean_events images_dir output_base_dir)).
    rewrite !omap_app, moved_clean_events, (moved_labeled rest Hrest).
    cbn [omap list_omap moved app]. by rewrite app_nil_r.
  - intros path mask. rewrite Hlog. intros Hin.
    apply elem_of_app in Hin as [Hin|Hin].
    { exfalso. apply elem_of_cons in Hin as [?|Hin]; [done|].
      apply list_elem_of_bind in Hin as (img & Hev & _).
      apply elem_of_cons in Hev as [?|Hev]; [done|].
      apply elem_of_cons in Hev as [?|Hev]; [done|]. by apply elem_of_nil in Hev. }
    pose proof (proj1 (Forall_forall _ _) Hrest _ Hin) as Hev.
    destruct Hev as ([iid anns] & name & f & Hitem & Hclass & Hf & ->).
    exists iid, anns, name, f. split_and!; [done..|].
    intros img [Hc _]%list_elem_of_filter <-.
    assert (contains (image_annotations coco_data) (img_id img) = true) as Hc'.
    { unfold contains. apply bool_decide_eq_true, list_elem_of_fmap.
      by exists (img_id img, anns). }
    congruence.
  - intros counts log Hcall.
    destruct (returned_counts counts log "clean" Hcall) as [-> _].
    by rewrite decide_True.
Qed.

(** C5. When the annotations of an image share one category id and that id
    has no name, the round raises [KeyError] on the id before any effect;
    the call then ends with an exception and returns no counts.  A round
    that emits the skip notice does not raise. *)
Theorem unknown_category_is_fatal (iid cid : Z) (anns : list annotation)
    (counts : gmap string nat) :
  anns ≠ [] → (∀ a, a ∈ anns → category_id a = cid) →
  category_map coco_data !! cid = None →
  step (iid, anns) counts = (Raise (KeyError cid), counts, []) ∧
  ((iid, anns) ∈ image_annotations coco_data → ∃ e log, call = Raised e log) ∧
  (∀ iid' anns' counts1 r counts2 evs f,
     step (iid', anns') counts1 = (r, counts2, evs) →
     print (Skipping_multiple_classes f) ∈ evs → r = Ok tt).
Proof.
  intros Hne Hall Hname.
  assert (∀ counts0, step (iid, anns) counts0 = (Raise (KeyError cid), counts0, []))
    as Hraise.
  { intros counts0. rewrite process_image_unfold. cbv zeta.
    rewrite (category_ids_single cid), size_singleton, elements_singleton by done.
    rewrite decide_False by lia. by rewrite Hname. }
  split_and!.
  - apply Hraise.
  - intros Hin. apply (call_Raised _ Hin). intros counts0. by rewrite Hraise.
  - intros iid' anns' counts1 r counts2 evs f Hstep Hev.
    apply process_image_outcome in Hstep.
    inversion Hstep; simplify_eq; try done; try by apply elem_of_nil in Hev.
    all: unfold copy_events, dir_events in Hev; set_solver.
Qed.

(** C8. Counts are returned only by a call in which the round of every
    image of the index ran to its end, either as a skip for two categories
    or as a complete assignment (copy, count, mask); each returned count is
    then the number of closing notices of that class in the log.  An image
    whose round raises, from whatever counts, makes the call raise: no
    counts are returned. *)
Theorem counts_reflect_completed_images :
  (∀ counts log, call = Returned counts log →
     (∀ iid anns, (iid, anns) ∈ image_annotations coco_data →
        ∃ counts1 counts2 evs,
          step (iid, anns) counts1 = (Ok tt, counts2, evs) ∧
          (∀ ev, ev ∈ evs → ev ∈ log) ∧
          ((two_categories anns ∧ counts2 = counts1 ∧
            ∃ f, evs = [print (Skipping_multiple_classes f)]) ∨
           (∃ name f mask,
              counts2 = bump name counts1 ∧
              evs = copy_events images_dir output_base_dir name f
                    ++ mask_events output_base_dir name f mask))) ∧
     ∀ k, counts !!! k = sum_list_with (finished k) log) ∧
  (∀ item counts, item ∈ image_annotations coco_data →
     is_Ok (step item counts).1.1 = false →
     ∃ e log, call = Raised e log).
Proof.
  split.
  - intros counts log Hcall. split.
    + intros iid anns Hin. apply call_Returned in Hcall as (evs & Hloop & ->).
      destruct (for_each_Ok_elem _ _ _ _ _ _ Hloop Hin)
        as (counts1 & counts2 & evsx & Hstep & Hsub).
      exists counts1, counts2, evsx. split_and!; [done| |].
      * intros ev Hev. apply elem_of_app. right. apply elem_of_app. left.
        by apply Hsub.
      * apply process_image_outcome in Hstep.
        inversion Hstep as [f Htwo Hf| | | | | | |cid name f h w mask];
          simplify_eq.
        -- left. split_and!; [done..|]. by exists f.
        -- right. by exists name, f, mask.
    + intros k. by destruct (returned_counts counts log k Hcall) as [_ <-].
  - intros item counts Hin Hraise. apply (call_Raised _ Hin).
    intros counts'. by rewrite (process_image_raises_always item counts' counts).
Qed.

(** C9. A round that returns for an image of class [name] adds one to the
    count of [name] and changes no other count, whatever the annotations and
    polygons of the image.  The returned count of a class is the number of
    index entries of that class, plus the unlabeled image records for the
    key "clean"; the summary prints these counts. *)
Theorem one_count_per_image :
  (∀ iid anns name counts counts' evs,
     class_of coco_data anns = Some name →
     step (iid, anns) counts = (Ok tt, counts', evs) →
     counts' = bump name counts ∧
     ∀ k, counts' !!! k = (counts !!! k + if decide (name = k) then 1 else 0)%nat) ∧
  (∀ counts log, call = Returned counts log →
     (∀ k, counts !!! k
           = ((if decide ("clean" = k)
               then length (unlabeled_images coco_data) else 0)
              + length (images_of_class coco_data k))%nat) ∧
     (∀ k iid anns,
        (iid, anns) ∈ images_of_class coco_data k ↔
        (iid, anns) ∈ image_annotations coco_data ∧
        ∃ cid, (∀ a, a ∈ anns → category_id a = cid) ∧
               category_map coco_data !! cid = Some k) ∧
     (∃ evs, log = evs ++ summary_events counts) ∧
     (∀ k n, print (Summary_line k n) ∈ summary_events counts ↔
             counts !! k = Some n)).
Proof.
  split.
  - intros iid anns name counts counts' evs Hclass Hstep.
    apply process_image_outcome in Hstep.
    inversion Hstep as [f Htwo Hf| | | | | | |cid name' f h w mask Hne Hall Hname Hf Hhw Hmask];
      simplify_eq.
    + by rewrite class_of_two_categories in Hclass.
    + rewrite (class_of_shared anns cid), Hname in Hclass by done.
      injection Hclass as ->. split; [done|]. intros k. apply bump_lookup.
  - intros counts log Hcall. split_and!.
    + intros k. by destruct (returned_counts counts log k Hcall).
    + intros k iid anns. apply elem_of_images_of_class.
    + apply call_Returned in Hcall as (evs & _ & ->).
      eexists. by rewrite app_assoc.
    + apply elem_of_summary_events.
Qed.

(** C10. The key "clean" counts the unlabeled image records together with
    the images whose category is named "clean", and the summary prints that
    one number; both kinds of image are copied below the same directory
    [clean_dir]: the former into it, the latter into its subdirectory
    "images". *)
Theorem clean_category_shares_key (counts : gmap string nat) (log : list event) :
  call = Returned counts log →
  counts !!! "clean"
  = (length (unlabeled_images coco_data)
     + length (images_of_class coco_data "clean"))%nat ∧
  (∀ iid anns,
     (iid, anns) ∈ images_of_class coco_data "clean" ↔
     (iid, anns) ∈ image_annotations coco_data ∧
     ∃ cid, (∀ a, a ∈ anns → category_id a = cid) ∧
            category_map coco_data !! cid = Some "clean") ∧
  (∀ n, counts !! "clean" = Some n →
     n = counts !!! "clean" ∧ print (Summary_line "clean" n) ∈ log) ∧
  (∀ img, img ∈ unlabeled_images coco_data →
     copy2 (path_join images_dir (file_name img))
           (path_join (clean_dir output_base_dir) (file_name img)) ∈ log) ∧
  (∀ iid anns, (iid, anns) ∈ images_of_class coco_data "clean" →
     ∃ f, image_id_to_file coco_data !! iid = Some f ∧
       copy2 (path_join images_dir f)
             (path_join (path_join (clean_dir output_base_dir) "images") f) ∈ log).
Proof.
  intros Hcall. split_and!.
  - destruct (returned_counts counts log "clean" Hcall) as [-> _].
    by rewrite decide_True.
  - apply elem_of_images_of_class.
  - intros n Hn. split; [by rewrite lookup_total_alt, Hn|].
    apply call_Returned in Hcall as (evs & _ & ->).
    apply elem_of_app. right. apply elem_of_app. right.
    by apply elem_of_summary_events.
  - intros img Himg. apply call_Returned in Hcall as (evs & _ & ->).
    apply elem_of_app. left. right. apply list_elem_of_bind.
    exists img. split; [left|done].
  - intros iid anns [Hclass Hin]%list_elem_of_filter. simpl in Hclass.
    apply call_Returned in Hcall as (evs & Hloop & ->).
    destruct (for_each_Ok_elem _ _ _ _ _ _ Hloop Hin)
      as (counts1 & counts2 & evsx & Hstep & Hsub).
    apply process_image_outcome in Hstep.
    inversion Hstep as [f Htwo Hf| | | | | | |cid name f h w mask Hne Hall Hname Hf Hhw Hmask];
      simplify_eq.
    + by rewrite class_of_two_categories in Hclass.
    + rewrite (class_of_shared anns cid), Hname in Hclass by done.
      injection Hclass as ->. exists f. split; [done|].
      apply elem_of_app. right. apply elem_of_app. left. apply Hsub.
      unfold copy_events, dir_events, clean_dir. set_solver.
Qed.

(** ** Which documents are processed to the end *)

Lemma comprehension_is_Some {A V} (key : A → Z) (val : A → V) (l : list A) (k : Z) :
  is_Some (fold_left (λ d x, <[key x := val x]> d) l (∅ : gmap Z V) !! k) ↔
  ∃ x, x ∈ l ∧ key x = k.
Proof.
  rewrite comprehension_lookup, lookup_empty. split.
  - destruct (last (filter _ l)) as [x|] eqn:Hlast; [|by intros [? ?]].
    intros _. apply last_Some_elem_of, list_elem_of_filter in Hlast as [? ?].
    by exists x.
  - intros (x & Hx & Hk).
    destruct (last (filter (λ x, key x = k) l)) as [y|] eqn:Hlast; [done|].
    apply last_None in Hlast.
    by apply (filter_nil_not_elem_of (λ x, key x = k) l x) in Hlast.
Qed.

Lemma image_id_to_file_is_Some (k : Z) :
  is_Some (image_id_to_file coco_data !! k) ↔
  ∃ img, img ∈ images coco_data ∧ img_id img = k.
Proof. apply comprehension_is_Some. Qed.

Lemma image_id_to_size_is_Some (k : Z) :
  is_Some (image_id_to_size coco_data !! k) ↔
  ∃ img, img ∈ images coco_data ∧ img_id img = k.
Proof. apply comprehension_is_Some. Qed.

Lemma category_map_is_Some (k : Z) :
  is_Some (category_map coco_data !! k) ↔
  ∃ cat, cat ∈ categories coco_data ∧ cat_id cat = k.
Proof. apply comprehension_is_Some. Qed.

Lemma first_odd_None (segs : list (list Z)) :
  first_odd segs = None ↔ ∀ seg, seg ∈ segs → Nat.Even (length seg).
Proof.
  unfold first_odd. induction segs as [|seg segs IH]; simpl.
  - split; [|done]. intros _ seg Hseg. by apply elem_of_nil in Hseg.
  - destruct (Nat.odd (length seg)) eqn:Hodd.
    + split; [done|]. intros Hall. exfalso.
      apply Nat.odd_spec in Hodd.
      apply (Nat.Even_Odd_False (length seg)); [|done]. apply Hall. left.
    + rewrite IH. split.
      * intros Hall seg' [->|Hin]%elem_of_cons; [|by apply Hall].
        apply Nat.even_spec. by rewrite <- Nat.negb_odd, Hodd.
      * intros Hall seg' Hin. apply Hall. by right.
Qed.

Lemma first_odd_Some (segs : list (list Z)) (seg : list Z) :
  first_odd segs = Some seg → seg ∈ segs ∧ Nat.Odd (length seg).
Proof.
  unfold first_odd. induction segs as [|seg' segs IH]; simpl; [done|].
  destruct (Nat.odd (length seg')) eqn:Hodd.
  - intros [= <-]. split; [left|by apply Nat.odd_spec].
  - intros [Hin Hlen]%IH. split; [by right|done].
Qed.

(** The masks of a list of polygons: the first polygon with an odd number
    of coordinates decides the exception; without one there is a mask for
    each polygon. *)
Lemma rasterize_all_result (segs : list (list Z)) (h w : Z) :
  0 ≤ h → 0 ≤ w →
  match first_odd segs with
  | Some seg => rasterize_all segs h w = Raise (ValueError_reshape (length seg))
  | None => ∃ masks, rasterize_all segs h w = Ok masks ∧
              Forall (mask_of_shape (Z.to_nat h) (Z.to_nat w)) masks
  end.
Proof.
  intros Hh Hw. unfold first_odd.
  induction segs as [|seg segs IH]; simpl; [by exists []|].
  destruct (Nat.odd (length seg)) eqn:Hodd.
  - unfold create_binary_mask. rewrite np_zeros_Ok by done. simpl.
    by rewrite reshape_pairs_odd by by apply Nat.odd_spec.
  - assert (Nat.Even (length seg)) as Heven
      by (apply Nat.even_spec; by rewrite <- Nat.negb_odd, Hodd).
    destruct (reshape_pairs_even seg Heven) as [poly Hpoly].
    destruct (create_binary_mask seg h w) as [mask|e] eqn:Hmask.
    + simpl. apply create_binary_mask_shape in Hmask.
      destruct (List.find _ segs) as [seg'|].
      * by rewrite IH.
      * destruct IH as (masks & -> & Hmasks). simpl.
        exists (mask :: masks). split; [done|]. by constructor.
    + unfold create_binary_mask in Hmask.
      by rewrite np_zeros_Ok, Hpoly in Hmask by done.
Qed.

(** Lines 88-93 as a whole: negative extents raise first; then the first
    polygon with an odd number of coordinates; otherwise there is a mask. *)
Lemma combined_mask_result (segs : list (list Z)) (h w : Z) :
  let run := result_bind (np_zeros h w) (λ zeros, or_polygons zeros segs h w) in
  (h < 0 ∨ w < 0 → run = Raise ValueError_negative_dimensions) ∧
  (0 ≤ h → 0 ≤ w → ∀ seg, first_odd segs = Some seg →
     run = Raise (ValueError_reshape (length seg))) ∧
  (0 ≤ h → 0 ≤ w → first_odd segs = None → ∃ mask, run = Ok mask).
Proof.
  cbv zeta. split_and!.
  - intros Hneg. unfold np_zeros.
    destruct (Z.ltb_spec h 0), (Z.ltb_spec w 0); simpl; try done. lia.
  - intros Hh Hw seg Hseg. rewrite np_zeros_Ok by done. simpl.
    rewrite or_polygons_accumulate by apply mask_of_shape_zeros.
    pose proof (rasterize_all_result segs h w Hh Hw) as Hall.
    rewrite Hseg in Hall. by rewrite Hall.
  - intros Hh Hw Hnone. rewrite np_zeros_Ok by done. simpl.
    rewrite or_polygons_accumulate by apply mask_of_shape_zeros.
    pose proof (rasterize_all_result segs h w Hh Hw) as Hall.
    rewrite Hnone in Hall. destruct Hall as (masks & -> & Hmasks). simpl.
    destruct (accumulate_from_masks _ _ masks Hmasks _
                (mask_of_shape_zeros (Z.to_nat h) (Z.to_nat w)))
      as (res & Hres & _). by exists res.
Qed.

Lemma for_each_all_Ok {A} (l : list A) (body : A → M unit) :
  (∀ x counts, x ∈ l → ∃ counts' evs, body x counts = (Ok tt, counts', evs)) →
  ∀ counts, ∃ counts' evs, for_each l body counts = (Ok tt, counts', evs).
Proof.
  induction l as [|x l IH]; intros Hall counts; [by eexists _, _|].
  rewrite for_each_cons.
  destruct (Hall x counts) as (counts1 & evs1 & ->); [left|].
  destruct (IH (λ y c Hy, Hall y c (list_elem_of_further _ _ _ Hy)) counts1)
    as (counts2 & evs2 & ->).
  by eexists _, _.
Qed.

(** On a document in the domain, the round of an index entry returns
    exactly when the entry is processable. *)
Lemma round_returns_iff (iid : Z) (anns : list annotation)
    (counts : gmap string nat) :
  in_domain coco_data →
  (iid, anns) ∈ image_annotations coco_data →
  (∃ counts' evs, step (iid, anns) counts = (Ok tt, counts', evs)) ↔
  processable coco_data iid anns.
Proof.
  intros [Hsizes _] [_ Hne]%elem_of_image_annotations. split.
  - intros (counts' & evs & Hstep). apply process_image_outcome in Hstep.
    inversion Hstep as [f Htwo Hf| | | | | | |cid name f h w mask _ Hall Hname Hf Hhw Hmask];
      simplify_eq.
    + split; [|by left]. apply image_id_to_file_is_Some. by rewrite Hf.
    + split; [apply image_id_to_file_is_Some; by rewrite Hf|]. right.
      rewrite image_id_to_size_lookup in Hhw.
      destruct (last _) as [img|] eqn:Himg; [|done]. injection Hhw as <- <-.
      assert (height img ≠ 0 ∧ width img ≠ 0) as [Hh0 Hw0].
      { apply last_Some_elem_of, list_elem_of_filter in Himg as [_ Himg].
        by destruct (Hsizes img Himg) as (? & ? & _). }
      exists cid, img. split_and!; try done.
      * apply category_map_is_Some. by rewrite Hname.
      * destruct (np_zeros _ _) as [z|] eqn:Hz; [|done].
        apply np_zeros_inv in Hz as (? & ? & _). lia.
      * destruct (np_zeros _ _) as [z|] eqn:Hz; [|done].
        apply np_zeros_inv in Hz as (? & ? & _). lia.
      * apply first_odd_None.
        destruct (np_zeros (height img) (width img)) as [z|] eqn:Hz; [|done].
        apply np_zeros_inv in Hz as (Hh & Hw & ->).
        destruct (first_odd (all_polygons anns)) as [seg|] eqn:Hodd; [|done].
        destruct (combined_mask_result (all_polygons anns) (height img) (width img))
          as (_ & Hraise & _).
        specialize (Hraise Hh Hw seg Hodd).
        rewrite np_zeros_Ok in Hraise by done. simpl in *.
        rewrite or_annotations_all_polygons in Hmask. congruence.
  - intros [[f Hf]%image_id_to_file_is_Some Hcase].
    destruct Hcase
      as [Htwo|(cid & img & Hall & Hcat & Himg
                & Hh%Z.lt_le_incl & Hw%Z.lt_le_incl & Heven)].
    + rewrite process_image_two_categories, Hf by done. by eexists _, _.
    + apply category_map_is_Some in Hcat as [name Hname].
      rewrite process_image_unfold. cbv zeta.
      rewrite (category_ids_single cid), size_singleton, elements_singleton by done.
      rewrite decide_False by lia. rewrite Hname, Hf.
      rewrite image_id_to_size_lookup, Himg. simpl.
      destruct (combined_mask_result (all_polygons anns) (height img) (width img))
        as (_ & _ & Hok).
      destruct (Hok Hh Hw) as [mask Hmask]; [by apply first_odd_None|].
      rewrite np_zeros_Ok in Hmask |- * by done. simpl in *.
      rewrite or_annotations_all_polygons, Hmask. by eexists _, _.
Qed.

(** On a document in the domain, the call returns exactly when every
    entry of the index is processable. *)
Lemma call_returns_iff :
  in_domain coco_data →
  (∃ counts log, call = Returned counts log) ↔
  ∀ iid anns, (iid, anns) ∈ image_annotations coco_data →
    processable coco_data iid anns.
Proof.
  intros Hdom. split.
  - intros (counts & log & (evs & Hloop & _)%call_Returned) iid anns Hin.
    destruct (for_each_Ok_elem _ _ _ _ _ _ Hloop Hin)
      as (counts1 & counts2 & evsx & Hstep & _).
    apply (round_returns_iff iid anns counts1 Hdom Hin). by eexists _, _.
  - intros Hall. unfold process_coco_dataset. rewrite run_unfold. cbv zeta.
    destruct (for_each_all_Ok (image_annotations coco_data) step) with
      (counts := first_counts) as (counts2 & evs2 & ->).
    { intros [iid anns] counts Hin.
      by apply (round_returns_iff iid anns counts Hdom Hin), Hall. }
    by eexists _, _.
Qed.

(** X1. On a document in the domain (no recorded height or width is 0,
    all are C [int]s, every polygon has a vertex and [np.int32]
    coordinates), a round returns
    exactly when its entry is processable: the image id is the id of an
    image record, and either the entry has two category ids, or its one
    category id is the id of a category record, the recorded height and
    width are positive and every polygon has an even number of coordinates.
    [process_coco_dataset] returns exactly when every entry of the
    annotation index is processable; otherwise it raises. *)
Theorem returns_iff_processable :
  in_domain coco_data →
  (∀ iid anns counts, (iid, anns) ∈ image_annotations coco_data →
     (∃ counts' evs, step (iid, anns) counts = (Ok tt, counts', evs)) ↔
     processable coco_data iid anns) ∧
  ((∃ counts log, call = Returned counts log) ↔
   ∀ iid anns, (iid, anns) ∈ image_annotations coco_data →
     processable coco_data iid anns) ∧
  ((∃ e log, call = Raised e log) ↔
   ∃ iid anns, (iid, anns) ∈ image_annotations coco_data ∧
     ¬ processable coco_data iid anns).
Proof.
  intros Hdom. pose proof (call_returns_iff Hdom) as Hcall.
  split_and!.
  - intros iid anns counts. by apply round_returns_iff.
  - done.
  - split.
    + intros (e & log & Hraised).
      destruct (decide (Forall (λ item, is_Ok (step item ∅).1.1 = true)
                          (image_annotations coco_data))) as [Hall|Hnot].
      * exfalso. destruct (proj2 Hcall) as (counts & log' & Hret); [|congruence].
        intros iid anns Hin. apply (round_returns_iff iid anns ∅ Hdom Hin).
        pose proof (proj1 (Forall_forall _ _) Hall _ Hin) as Hok. cbn beta in Hok.
        destruct (step (iid, anns) ∅) as [[[[]|e'] c'] evs']; [|done].
        by eexists _, _.
      * apply not_Forall_Exists in Hnot; [|apply _].
        apply Exists_exists in Hnot as ([iid anns] & Hin & Hraise).
        exists iid, anns. split; [done|].
        intros (c' & evs' & Hok)%(round_returns_iff iid anns ∅ Hdom Hin).
        apply Hraise. cbn beta. by rewrite Hok.
    + intros (iid & anns & Hin & Hnot). apply (call_Raised _ Hin).
      intros counts.
      destruct (step (iid, anns) counts) as [[[[]|e'] c'] evs'] eqn:Hstep; [|done].
      exfalso. apply Hnot, (round_returns_iff iid anns counts Hdom Hin).
      by eexists _, _.
Qed.

(** X2. The exceptions of a round on a document in the domain (no
    recorded height or width is 0, all are C [int]s, every polygon has a
    vertex and [np.int32] coordinates), and what the round has done by
    then.
    [KeyError] on the image id or on the category id comes before any copy
    and any count; a negative recorded size or a polygon with an odd number
    of coordinates raises [ValueError] after the image was copied and
    counted.  On such a document the size lookup of line 87 does not fail
    and [pop] does not meet an empty set. *)
Theorem round_exceptions (iid : Z) (anns : list annotation)
    (counts counts' : gmap string nat) (e : exn) (evs : list event) :
  in_domain coco_data →
  (iid, anns) ∈ image_annotations coco_data →
  step (iid, anns) counts = (Raise e, counts', evs) →
  (e = KeyError iid ∧
   (∀ img, img ∈ images coco_data → img_id img ≠ iid) ∧
   counts' = counts ∧ ∀ ev, ev ∈ evs → ∃ path, ev = makedirs path) ∨
  (∃ cid, e = KeyError cid ∧
     (∀ a, a ∈ anns → category_id a = cid) ∧
     (∀ cat, cat ∈ categories coco_data → cat_id cat ≠ cid) ∧
     counts' = counts ∧ evs = []) ∨
  (∃ name f img,
     last (filter (λ img, img_id img = iid) (images coco_data)) = Some img ∧
     counts' = bump name counts ∧
     evs = copy_events images_dir output_base_dir name f ∧
     ((e = ValueError_negative_dimensions ∧ (height img < 0 ∨ width img < 0)) ∨
      (∃ seg, e = ValueError_reshape (length seg) ∧
         0 < height img ∧ 0 < width img ∧
         first_odd (all_polygons anns) = Some seg))).
Proof.
  intros [Hsizes _] [_ Hne]%elem_of_image_annotations Hstep.
  assert (∀ k, image_id_to_file coco_data !! k = None →
            ∀ img, img ∈ images coco_data → img_id img ≠ k) as Hnofile.
  { intros k Hk img Himg Hid.
    assert (is_Some (image_id_to_file coco_data !! k)) as [? ?]
      by (apply image_id_to_file_is_Some; eauto).
    congruence. }
  apply process_image_outcome in Hstep.
  inversion Hstep
    as [|Htwo Hf| |cid _ Hall Hname|cid name _ Hall Hname Hf
        |cid name f _ Hall Hname Hf Hhw|cid name f h w e' _ Hall Hname Hf Hhw Hmask|];
    simplify_eq.
  - left. split_and!; [done|by apply Hnofile|done|].
    intros ev Hev. by apply elem_of_nil in Hev.
  - right. left. exists cid. split_and!; try done.
    intros cat Hcat Hid.
    assert (is_Some (category_map coco_data !! cid)) as [? ?]
      by (apply category_map_is_Some; eauto).
    congruence.
  - left. split_and!; [done|by apply Hnofile|done|].
    intros ev Hev. unfold dir_events in Hev.
    apply elem_of_cons in Hev as [->|Hev]; [by eexists|].
    apply elem_of_cons in Hev as [->|Hev]; [by eexists|].
    by apply elem_of_nil in Hev.
  - exfalso.
    assert (is_Some (image_id_to_size coco_data !! iid)) as [? ?]; [|congruence].
    apply image_id_to_size_is_Some, image_id_to_file_is_Some. by rewrite Hf.
  - right. right. rewrite image_id_to_size_lookup in Hhw.
    destruct (last _) as [img|] eqn:Himg; [|done]. injection Hhw as <- <-.
    assert (height img ≠ 0 ∧ width img ≠ 0) as [Hh0 Hw0].
    { apply last_Some_elem_of, list_elem_of_filter in Himg as [_ Himg'].
      by destruct (Hsizes img Himg') as (? & ? & _). }
    exists name, f, img. split_and!; [done..|].
    destruct (combined_mask_result (all_polygons anns) (height img) (width img))
      as (Hneg & Hodd & Hok).
    assert (result_bind (np_zeros (height img) (width img))
              (λ zeros, or_polygons zeros (all_polygons anns) (height img) (width img))
            = Raise e) as Hmask'.
    { rewrite <- Hmask. destruct (np_zeros _ _); simpl; [|done].
      by rewrite or_annotations_all_polygons. }
    destruct (decide (height img < 0 ∨ width img < 0)) as [Hdim|Hdim].
    + left. rewrite Hneg in Hmask' by done. by injection Hmask' as <-.
    + right. assert (0 ≤ height img ∧ 0 ≤ width img) as [Hh Hw] by lia.
      destruct (first_odd (all_polygons anns)) as [seg|] eqn:Hfirst.
      * exists seg. rewrite (Hodd Hh Hw seg eq_refl) in Hmask'.
        injection Hmask' as <-. split_and!; [done|lia|lia|done].
      * destruct (Hok Hh Hw eq_refl) as [mask Hmask'']. congruence.
Qed.

(** ** The summary *)

Lemma ascii_compare_refl (a : Ascii.ascii) : Ascii.compare a a = Eq.
Proof. unfold Ascii.compare. apply N.compare_refl. Qed.

Lemma ascii_compare_lt_trans (a b c : Ascii.ascii) :
  Ascii.compare a b = Lt → Ascii.compare b c = Lt → Ascii.compare a c = Lt.
Proof.
  unfold Ascii.compare. rewrite !N.compare_lt_iff. apply N.lt_trans.
Qed.

Lemma string_compare_trans (s1 s2 s3 : string) :
  String.compare s1 s2 ≠ Gt → String.compare s2 s3 ≠ Gt →
  String.compare s1 s3 ≠ Gt.
Proof.
  revert s2 s3. induction s1 as [|a s1 IH]; intros [|b s2] [|c s3]; simpl;
    try done.
  destruct (Ascii.compare a b) eqn:Hab; [|clear IH|done];
    destruct (Ascii.compare b c) eqn:Hbc; try done.
  - apply Ascii.compare_eq_iff in Hab as ->.
    apply Ascii.compare_eq_iff in Hbc as ->.
    rewrite ascii_compare_refl. apply IH.
  - apply Ascii.compare_eq_iff in Hab as ->. by rewrite Hbc.
  - apply Ascii.compare_eq_iff in Hbc as <-. by rewrite Hab.
  - by rewrite (ascii_compare_lt_trans a b c).
Qed.

Lemma item_le_trans : Transitive item_le.
Proof.
  intros [k1 n1] [k2 n2] [k3 n3]. unfold item_le, String.leb. simpl.
  pose proof (string_compare_trans k1 k2 k3) as Htrans.
  destruct (String.compare k1 k2), (String.compare k2 k3), (String.compare k1 k3);
    try done; intros _ _; exfalso; by apply Htrans.
Qed.

Lemma item_le_total : Total item_le.
Proof. intros [k1 n1] [k2 n2]. apply String.leb_total. Qed.

Lemma sorted_items_Permutation (counts : gmap string nat) :
  sorted_items counts ≡ₚ map_to_list counts.
Proof. apply merge_sort_Permutation. Qed.

Lemma total_bump (key : string) (counts : gmap string nat) :
  sum_list (sorted_items (bump key counts)).*2
  = S (sum_list (sorted_items counts).*2).
Proof.
  rewrite !sorted_items_Permutation. unfold bump.
  rewrite lookup_total_alt.
  destruct (counts !! key) as [n|] eqn:Hkey; simpl.
  - rewrite <- insert_delete_eq.
    rewrite map_to_list_insert by apply lookup_delete_eq.
    rewrite <- (map_to_list_delete counts key n Hkey). done.
  - by rewrite map_to_list_insert.
Qed.

Lemma total_iter_bump (n : nat) (key : string) (counts : gmap string nat) :
  sum_list (sorted_items (Nat.iter n (bump key) counts)).*2
  = (n + sum_list (sorted_items counts).*2)%nat.
Proof.
  induction n as [|n IH]; [done|]. simpl. by rewrite total_bump, IH.
Qed.

Lemma positive_bump (key : string) (counts : gmap string nat) :
  positive_counts counts → positive_counts (bump key counts).
Proof.
  intros Hpos k n. unfold bump. destruct (decide (key = k)) as [->|Hk].
  - rewrite lookup_insert_eq. intros [= <-]. lia.
  - rewrite lookup_insert_ne by done. apply Hpos.
Qed.

Lemma positive_iter_bump (n : nat) (key : string) (counts : gmap string nat) :
  positive_counts counts → positive_counts (Nat.iter n (bump key) counts).
Proof. intros Hpos. induction n as [|n IH]; [done|]. by apply positive_bump. Qed.

Lemma for_each_process_image_total (items : list (Z * list annotation))
    (counts counts' : gmap string nat) (evs : list event) :
  for_each items step counts = (Ok tt, counts', evs) →
  (sum_list (sorted_items counts').*2
   + length (filter (λ item, (1 < size (category_ids item.2))%nat) items)
   = sum_list (sorted_items counts).*2 + length items)%nat ∧
  (positive_counts counts → positive_counts counts').
Proof.
  revert counts evs.
  induction items as [|[iid anns] items IH]; intros counts evs Hloop;
    apply for_each_Ok_inv in Hloop.
  - destruct Hloop as [-> ->]. simpl. split; [lia|done].
  - destruct Hloop as (counts1 & evs1 & evs2 & Hstep & Hrest & ->).
    apply IH in Hrest as [Htotal Hpos]. rewrite filter_cons. simpl.
    apply process_image_outcome in Hstep.
    inversion Hstep as [f Htwo Hf| | | | | | |cid name f h w mask Hne Hall Hname Hf Hhw Hmask];
      simplify_eq.
    + rewrite decide_True by by apply two_categories_size. simpl.
      split; [lia|done].
    + rewrite decide_False.
      * rewrite total_bump in Htotal. split; [lia|].
        intros Hc. by apply Hpos, positive_bump.
      * rewrite (category_ids_single cid), size_singleton by done. lia.
Qed.

(** X3. The summary of a call that returns: one line per key of
    [class_counts], in ascending order of the class names, no name twice and
    no count of zero, so that a class without image has no line, and every
    name is "clean" or the name of a category record; the total
    is the sum of the counts, which is the number of unlabeled image records
    plus the number of index entries that were not skipped. *)
Theorem summary_lists_classes_in_order (counts : gmap string nat) (log : list event) :
  call = Returned counts log →
  (∃ evs, log = evs ++ summary_events counts) ∧
  StronglySorted item_le (sorted_items counts) ∧
  NoDup (sorted_items counts).*1 ∧
  (∀ k n, (k, n) ∈ sorted_items counts ↔ counts !! k = Some n) ∧
  (∀ k, is_Some (counts !! k) ↔ (0 < counts !!! k)%nat) ∧
  (∀ k, is_Some (counts !! k) →
     k = "clean" ∨ ∃ cat, cat ∈ categories coco_data ∧ cat_name cat = k) ∧
  (sum_list (sorted_items counts).*2 + length (skipped_entries coco_data)
   = length (unlabeled_images coco_data) + length (image_annotations coco_data))%nat.
Proof.
  intros Hcall. pose proof (λ k, proj1 (returned_counts counts log k Hcall)) as Hformula.
  revert Hcall.
  intros (evs & Hloop & ->)%call_Returned.
  apply for_each_process_image_total in Hloop as [Htotal Hpos].
  assert (positive_counts counts) as Hpositive.
  { apply Hpos, positive_iter_bump. intros k n. by rewrite lookup_empty. }
  split_and!.
  - eexists. by rewrite app_assoc.
  - apply Sorted_StronglySorted; [apply item_le_trans|].
    apply (@Sorted_merge_sort _ item_le _ item_le_total).
  - rewrite sorted_items_Permutation. apply NoDup_fst_map_to_list.
  - intros k n. rewrite sorted_items_Permutation. apply elem_of_map_to_list.
  - intros k. rewrite lookup_total_alt. split.
    + intros [n Hn]. rewrite Hn. simpl. by apply (Hpositive k n).
    + destruct (counts !! k); [by eexists|simpl; lia].
  - intros k [n Hn]. pose proof (Hpositive k n Hn) as Hpos_n.
    specialize (Hformula k). rewrite lookup_total_alt, Hn in Hformula.
    simpl in Hformula.
    destruct (decide ("clean" = k)) as [<-|Hk]; [by left|]. right.
    destruct (images_of_class coco_data k) as [|[iid anns] rest] eqn:Hclass;
      [simpl in Hformula; lia|].
    assert ((iid, anns) ∈ images_of_class coco_data k) as Hin
      by (rewrite Hclass; left).
    apply elem_of_images_of_class in Hin as (_ & cid & _ & Hname).
    rewrite category_map_lookup in Hname.
    destruct (last _) as [cat|] eqn:Hcat; [|done]. injection Hname as <-.
    exists cat. split; [|done].
    by apply last_Some_elem_of, list_elem_of_filter in Hcat as [_ ?].
  - rewrite total_iter_bump in Htotal. unfold skipped_entries.
    assert (sum_list (sorted_items (∅ : gmap string nat)).*2 = 0%nat) as Hempty.
    { by rewrite sorted_items_Permutation, map_to_list_empty. }
    rewrite Hempty in Htotal. lia.
Qed.

(** ** The mask file *)

Lemma cell_times_255 (a : ndarray) (r c : nat) :
  cell (times_255 a) r c = (λ v, (v * 255) mod 256) <$> cell a r c.
Proof.
  unfold cell, times_255. simpl. rewrite list_lookup_fmap.
  destruct (cells a !! r) as [row|]; simpl; [|done].
  apply list_lookup_fmap.
Qed.

Lemma well_shaped_times_255 (a : ndarray) :
  well_shaped a → well_shaped (times_255 a).
Proof.
  intros [Hlen Hrows]. split; simpl; [by rewrite length_map|].
  apply Forall_fmap. eapply Forall_impl; [done|].
  intros row Hrow. simpl. by rewrite length_map.
Qed.

(** Two masks of one shape with the same cells at 1 are the same array. *)
Lemma mask_ext (h w : nat) (a b : ndarray) :
  mask_of_shape h w a → mask_of_shape h w b →
  (∀ r c, (r < h)%nat → (c < w)%nat → cell a r c = Some 1 ↔ cell b r c = Some 1) →
  a = b.
Proof.
  intros Ha Hb Hcells.
  assert (∀ r c, cell a r c = cell b r c) as Heq.
  { intros r c.
    destruct (decide (r < h)%nat) as [Hr|Hr]; [destruct (decide (c < w)%nat) as [Hc|Hc]|].
    - destruct (cell_in_range h w a r c Ha Hr Hc) as (x & Hx & Hx01).
      destruct (cell_in_range h w b r c Hb Hr Hc) as (y & Hy & Hy01).
      specialize (Hcells r c Hr Hc). rewrite Hx, Hy in Hcells |- *.
      destruct Hx01 as [-> | ->], Hy01 as [-> | ->]; try done.
      + by pose proof (proj2 Hcells eq_refl).
      + by pose proof (proj1 Hcells eq_refl).
    - destruct Ha as (_ & Hwa & [_ Hrowsa] & _), Hb as (_ & Hwb & [_ Hrowsb] & _).
      unfold cell.
      destruct (cells a !! r) as [ra|] eqn:Hra, (cells b !! r) as [rb|] eqn:Hrb;
        simpl; try done.
      + pose proof (Forall_lookup_1 _ _ _ _ Hrowsa Hra).
        pose proof (Forall_lookup_1 _ _ _ _ Hrowsb Hrb). simpl in *.
        rewrite !lookup_ge_None_2; [done|lia..].
      + pose proof (Forall_lookup_1 _ _ _ _ Hrowsa Hra). simpl in *.
        apply lookup_ge_None_2. lia.
      + pose proof (Forall_lookup_1 _ _ _ _ Hrowsb Hrb). simpl in *.
        symmetry. apply lookup_ge_None_2. lia.
    - destruct Ha as (Hha & _ & [Hlena _] & _), Hb as (Hhb & _ & [Hlenb _] & _).
      unfold cell. rewrite !lookup_ge_None_2; [done|lia..]. }
  destruct Ha as (Hha & Hwa & [Hlena Hrowsa] & _).
  destruct Hb as (Hhb & Hwb & [Hlenb Hrowsb] & _).
  destruct a as [ha wa ca], b as [hb wb cb]. simpl in *. subst ha wa hb wb.
  f_equal. apply list_eq. intros r.
  destruct (ca !! r) as [ra|] eqn:Hra, (cb !! r) as [rb|] eqn:Hrb.
  - f_equal. apply list_eq. intros c. specialize (Heq r c).
    unfold cell in Heq. simpl in Heq. by rewrite Hra, Hrb in Heq.
  - apply lookup_lt_Some in Hra. apply lookup_ge_None in Hrb. lia.
  - apply lookup_lt_Some in Hrb. apply lookup_ge_None in Hra. lia.
  - done.
Qed.

(** X4. The array that a round hands to [cv2.imwrite]: it has the height
    and width recorded for the image, and each of its cells is 255 where
    some polygon of the image is painted and 0 elsewhere; it goes to the
    directory "masks" of the class, under the name of the image with the
    extension replaced by ".png". *)
Theorem written_mask_is_black_and_white (iid : Z) (anns : list annotation)
    (counts counts' : gmap string nat) (r0 : result unit) (evs : list event)
    (path : string) (written : ndarray) :
  step (iid, anns) counts = (r0, counts', evs) →
  imwrite path written ∈ evs →
  ∃ cid name f img,
    (∀ a, a ∈ anns → category_id a = cid) ∧
    category_map coco_data !! cid = Some name ∧
    image_id_to_file coco_data !! iid = Some f ∧
    last (filter (λ img, img_id img = iid) (images coco_data)) = Some img ∧
    path = path_join (path_join (path_join output_base_dir name) "masks")
             (splitext_root f +:+ ".png") ∧
    nrows written = Z.to_nat (height img) ∧
    ncols written = Z.to_nat (width img) ∧
    well_shaped written ∧
    ∀ r c, (r < Z.to_nat (height img))%nat → (c < Z.to_nat (width img))%nat →
      (cell written r c = Some 0 ∨ cell written r c = Some 255) ∧
      (cell written r c = Some 255 ↔
       ∃ seg poly, seg ∈ all_polygons anns ∧ reshape_pairs seg = Ok poly ∧
                   painted poly (Z.of_nat c) (Z.of_nat r) = true).
Proof.
  intros Hstep Hin. apply process_image_outcome in Hstep.
  inversion Hstep as [| | | | | | |cid name f h w mask Hne Hall Hname Hf Hhw Hmask];
    simplify_eq;
    try (by apply elem_of_nil in Hin);
    try (unfold copy_events, dir_events in Hin; set_solver).
  assert (imwrite path written
          = imwrite (path_join (path_join (path_join output_base_dir name) "masks")
                       (splitext_root f +:+ ".png")) (times_255 mask)) as Heq.
  { unfold copy_events, dir_events, mask_events in Hin. set_solver. }
  injection Heq as -> ->.
  rewrite image_id_to_size_lookup in Hhw.
  destruct (last _) as [img|] eqn:Himg; [|done]. injection Hhw as <- <-.
  assert (result_bind (np_zeros (height img) (width img))
            (λ zeros, or_polygons zeros (all_polygons anns) (height img) (width img))
          = Ok mask) as Hmask'.
  { rewrite <- Hmask. destruct (np_zeros _ _); simpl; [|done].
    by rewrite or_annotations_all_polygons. }
  apply combined_mask_spec in Hmask'
    as (masks & _ & _ & Hh & Hw & Hshape & Hcell).
  exists cid, name, f, img. split_and!; try done.
  - by destruct Hshape as (? & _).
  - by destruct Hshape as (_ & ? & _).
  - apply well_shaped_times_255. by destruct Hshape as (_ & _ & ? & _).
  - intros r c Hr Hc. rewrite cell_times_255, <- Hcell by done.
    destruct (cell_in_range _ _ mask r c Hshape Hr Hc) as (v & -> & [-> | ->]);
      simpl; split; auto; split; done.
Qed.

(** X5. The combined mask depends on the polygons as a set: their order
    and their repetition make no difference. *)
Theorem combined_mask_depends_on_polygon_set (segs segs' : list (list Z))
    (h w : Z) (mask : ndarray) :
  (∀ seg, seg ∈ segs ↔ seg ∈ segs') →
  result_bind (np_zeros h w) (λ zeros, or_polygons zeros segs h w) = Ok mask →
  result_bind (np_zeros h w) (λ zeros, or_polygons zeros segs' h w) = Ok mask.
Proof.
  intros Hsame Hmask.
  assert (0 ≤ h ∧ 0 ≤ w) as [Hh Hw].
  { destruct (np_zeros h w) as [z|] eqn:Hz; [|done].
    by apply np_zeros_inv in Hz as (? & ? & _). }
  destruct (combined_mask_result segs h w) as (_ & Hodd & _).
  destruct (combined_mask_result segs' h w) as (_ & _ & Hok').
  assert (first_odd segs = None) as Hnone.
  { destruct (first_odd segs) as [seg|] eqn:Hfirst; [|done].
    specialize (Hodd Hh Hw seg eq_refl). simpl in *. congruence. }
  destruct (Hok' Hh Hw) as [mask' Hmask'].
  { apply first_odd_None. intros seg Hseg.
    by apply (proj1 (first_odd_None segs) Hnone), Hsame. }
  simpl in Hmask'. rewrite Hmask'. f_equal.
  apply combined_mask_spec in Hmask as (_ & _ & _ & _ & _ & Hshape & Hcell).
  apply combined_mask_spec in Hmask' as (_ & _ & _ & _ & _ & Hshape' & Hcell').
  apply (mask_ext _ _ _ _ Hshape' Hshape). intros r c Hr Hc.
  rewrite Hcell, Hcell' by done. split.
  - intros (seg & poly & Hseg & Hrest). exists seg, poly. split; [|done].
    by apply Hsame.
  - intros (seg & poly & Hseg & Hrest). exists seg, poly. split; [|done].
    by apply Hsame.
Qed.

(** ** The order and the content of the index *)

Lemma join_append_annotation (idx : list (Z * list annotation)) (ann : annotation) :
  mjoin (append_annotation idx ann).*2 ≡ₚ ann :: mjoin idx.*2.
Proof.
  induction idx as [|[k group] idx IH]; simpl; [done|].
  destruct (decide (k = image_id ann)) as [->|Hk]; simpl.
  - rewrite <- app_assoc. simpl.
    by rewrite <- Permutation_middle.
  - rewrite IH. by rewrite <- Permutation_middle.
Qed.

Lemma grouping_keys (anns : list annotation) :
  (fold_left append_annotation anns []).*1
  = reverse (remove_dups (reverse (image_id <$> anns))).
Proof.
  induction anns as [|ann anns IH] using rev_ind; [done|].
  rewrite fold_left_app. simpl. rewrite fst_append_annotation, IH.
  rewrite fmap_app, reverse_app. simpl.
  destruct (decide_rel elem_of (image_id ann) (reverse (image_id <$> anns)))
    as [Hin|Hin].
  - rewrite decide_True; [done|].
    by rewrite elem_of_reverse, elem_of_remove_dups.
  - rewrite decide_False; [by rewrite reverse_cons|].
    by rewrite elem_of_reverse, elem_of_remove_dups.
Qed.

Lemma grouping_join (anns : list annotation) :
  mjoin (fold_left append_annotation anns []).*2 ≡ₚ anns.
Proof.
  induction anns as [|ann anns IH] using rev_ind; [done|].
  rewrite fold_left_app. simpl. rewrite join_append_annotation, IH.
  apply Permutation_cons_append.
Qed.

(** X6. The annotation index has one entry per image id that occurs in the
    annotations, in the order in which the ids occur first; the groups
    together hold every annotation exactly once, each under its own image
    id, and no group is empty. *)
Theorem index_groups_by_first_occurrence :
  (image_annotations coco_data).*1
  = reverse (remove_dups (reverse (image_id <$> annotations coco_data))) ∧
  NoDup (image_annotations coco_data).*1 ∧
  mjoin (image_annotations coco_data).*2 ≡ₚ annotations coco_data ∧
  ∀ iid group, (iid, group) ∈ image_annotations coco_data →
    group ≠ [] ∧ ∀ a, a ∈ group → a ∈ annotations coco_data ∧ image_id a = iid.
Proof.
  split_and!.
  - apply grouping_keys.
  - apply NoDup_image_annotations.
  - apply grouping_join.
  - intros iid group [-> Hne]%elem_of_image_annotations. split; [done|].
    intros a [? ?]%list_elem_of_filter. done.
Qed.

(** ** Where the call writes *)

Lemma prefix_append (a b : string) : String.prefix a (a +:+ b) = true.
Proof.
  induction a as [|c a IH]; simpl; [by destruct b|].
  by destruct (Ascii.ascii_dec c c).
Qed.

Lemma prefix_trans (a b c : string) :
  String.prefix a b = true → String.prefix b c = true → String.prefix a c = true.
Proof.
  revert b c. induction a as [|x a IH]; intros [|y b] [|z c]; simpl; try done.
  destruct (Ascii.ascii_dec x y) as [->|]; [|done].
  destruct (Ascii.ascii_dec y z) as [->|]; [|done].
  apply IH.
Qed.

Lemma prefix_path_join (a b : string) :
  starts_with_sep b = false → String.prefix a (path_join a b) = true.
Proof.
  intros Hb. unfold path_join. rewrite Hb.
  destruct (_ || _); apply prefix_append.
Qed.

Lemma starts_with_sep_substring (n : nat) (f : string) :
  starts_with_sep (String.substring 0 n f) = true → starts_with_sep f = true.
Proof. by destruct n, f. Qed.

Lemma starts_with_sep_mask_name (f : string) :
  starts_with_sep f = false →
  starts_with_sep (splitext_root f +:+ ".png") = false.
Proof.
  intros Hf.
  assert (∀ x, (starts_with_sep x = true → starts_with_sep f = true) →
            starts_with_sep (x +:+ ".png") = false) as Hx.
  { intros [|c x] Himp; [done|]. simpl in *.
    destruct (Ascii.eqb c "/"); [|done]. rewrite Himp in Hf; done. }
  unfold splitext_root. destruct (_ <? _); [|by apply Hx].
  destruct (forallb _ _); [by apply Hx|].
  apply Hx, starts_with_sep_substring.
Qed.

Section Relative_names.

Hypothesis relative_files :
  ∀ img, img ∈ images coco_data → starts_with_sep (file_name img) = false.
Hypothesis relative_classes :
  ∀ cat, cat ∈ categories coco_data → starts_with_sep (cat_name cat) = false.

Lemma relative_file (iid : Z) (f : string) :
  image_id_to_file coco_data !! iid = Some f → starts_with_sep f = false.
Proof.
  rewrite image_id_to_file_lookup.
  destruct (last _) as [img|] eqn:Himg; [|done]. intros [= <-].
  apply relative_files.
  by apply last_Some_elem_of, list_elem_of_filter in Himg as [_ ?].
Qed.

Lemma relative_class (cid : Z) (name : string) :
  category_map coco_data !! cid = Some name → starts_with_sep name = false.
Proof.
  rewrite category_map_lookup.
  destruct (last _) as [cat|] eqn:Hcat; [|done]. intros [= <-].
  apply relative_classes.
  by apply last_Some_elem_of, list_elem_of_filter in Hcat as [_ ?].
Qed.

Lemma confined_class_dir (name sub leaf : string) :
  starts_with_sep name = false → starts_with_sep sub = false →
  starts_with_sep leaf = false →
  String.prefix output_base_dir (path_join (path_join output_base_dir name) sub)
  = true ∧
  String.prefix output_base_dir
    (path_join (path_join (path_join output_base_dir name) sub) leaf) = true.
Proof.
  intros Hname Hsub Hleaf.
  assert (String.prefix output_base_dir
            (path_join (path_join output_base_dir name) sub) = true) as Hdir.
  { eapply prefix_trans; by apply prefix_path_join. }
  split; [done|]. eapply prefix_trans; [done|]. by apply prefix_path_join.
Qed.

Lemma confined_copy_events (name f : string) :
  starts_with_sep name = false → starts_with_sep f = false →
  Forall (confined output_base_dir) (copy_events images_dir output_base_dir name f).
Proof.
  intros Hname Hf.
  destruct (confined_class_dir name "images" f) as [? ?]; [done..|].
  destruct (confined_class_dir name "masks" f) as [? _]; [done..|].
  unfold copy_events, dir_events.
  repeat constructor; intros path ->%list_elem_of_singleton; done.
Qed.

Lemma confined_mask_events (name f : string) (mask : ndarray) :
  starts_with_sep name = false → starts_with_sep f = false →
  Forall (confined output_base_dir) (mask_events output_base_dir name f mask).
Proof.
  intros Hname Hf.
  destruct (confined_class_dir name "masks" (splitext_root f +:+ ".png"))
    as [_ ?]; [done..|by apply starts_with_sep_mask_name|].
  unfold mask_events. repeat constructor.
  - intros path ->%list_elem_of_singleton. done.
  - intros path Hpath. by apply elem_of_nil in Hpath.
Qed.

Lemma confined_round (item : Z * list annotation) (counts : gmap string nat) :
  Forall (confined output_base_dir) (step item counts).2.
Proof.
  destruct item as [iid anns].
  destruct (step (iid, anns) counts) as [[r counts'] evs] eqn:Hstep. simpl.
  apply process_image_outcome in Hstep.
  inversion Hstep as [f Htwo Hf| | | |cid name _ Hall Hname Hf
        |cid name f _ Hall Hname Hf Hhw|cid name f h w e' _ Hall Hname Hf Hhw Hmask
        |cid name f h w mask _ Hall Hname Hf Hhw Hmask];
    simplify_eq; try by constructor.
  - repeat constructor. intros path Hpath. by apply elem_of_nil in Hpath.
  - apply relative_class in Hname.
    destruct (confined_class_dir name "images" "") as [? _]; [done..|].
    destruct (confined_class_dir name "masks" "") as [? _]; [done..|].
    unfold dir_events.
    repeat constructor; intros path ->%list_elem_of_singleton; done.
  - apply confined_copy_events; [by eapply relative_class|by eapply relative_file].
  - apply confined_copy_events; [by eapply relative_class|by eapply relative_file].
  - apply Forall_app. split.
    + apply confined_copy_events; [by eapply relative_class|by eapply relative_file].
    + apply confined_mask_events; [by eapply relative_class|by eapply relative_file].
Qed.

(** X7. When no file name and no category name starts with "/", every
    directory made, every copy destination and every mask written by a
    call, whether it returns or raises, has a path that begins with
    [output_base_dir]. *)
Theorem writes_stay_below_output :
  Forall (confined output_base_dir) (events_of call).
Proof.
  assert (Forall (confined output_base_dir) first_events) as Hfirst.
  { constructor.
    - intros path ->%list_elem_of_singleton. by apply prefix_path_join.
    - apply Forall_forall. intros ev (img & Hev & Himg)%list_elem_of_bind.
      apply list_elem_of_filter in Himg as [_ Himg].
      apply relative_files in Himg.
      assert (String.prefix output_base_dir
                (path_join (clean_dir output_base_dir) (file_name img)) = true).
      { eapply prefix_trans; by apply prefix_path_join. }
      unfold clean_events in Hev.
      apply elem_of_cons in Hev as [->|Hev].
      + intros path ->%list_elem_of_singleton. done.
      + apply list_elem_of_singleton in Hev as ->.
        intros path Hpath. by apply elem_of_nil in Hpath. }
  pose proof (for_each_events_Forall (confined output_base_dir)
                (image_annotations coco_data) step
                (λ item counts _, confined_round item counts) first_counts) as Hloop.
  unfold process_coco_dataset. rewrite run_unfold. cbv zeta.
  destruct (for_each _ _ _) as [[[[]|e] counts2] evs2];
    cbn [events_of snd] in *.
  - apply Forall_app. split; [done|]. apply Forall_app. split; [done|].
    apply Forall_forall. intros ev Hev path Hpath.
    unfold summary_events in Hev.
    rewrite !elem_of_app, list_elem_of_fmap in Hev.
    destruct Hev as [Hev|[(item & -> & _)|Hev]];
      [|by apply elem_of_nil in Hpath|].
    + apply elem_of_cons in Hev as [->|Hev]; [by apply elem_of_nil in Hpath|].
      apply list_elem_of_singleton in Hev as ->. by apply elem_of_nil in Hpath.
    + apply elem_of_cons in Hev as [->|Hev]; [by apply elem_of_nil in Hpath|].
      apply list_elem_of_singleton in Hev as ->. by apply elem_of_nil in Hpath.
  - apply Forall_app. by split.
Qed.

End Relative_names.

(** ** The name of the mask file *)

Lemma rfind_from_absent (c : Ascii.ascii) (p : string) (i last : Z) :
  has_char c p = false → rfind_from c p i last = last.
Proof.
  unfold has_char. revert i last. induction p as [|a p IH]; intros i last; [done|].
  simpl. rewrite (Ascii.eqb_sym c a). destruct (Ascii.eqb a c); [done|]. apply IH.
Qed.

Lemma rfind_from_append (c : Ascii.ascii) (p q : string) (i last : Z) :
  rfind_from c (p +:+ q) i last
  = rfind_from c q (i + Z.of_nat (String.length p)) (rfind_from c p i last).
Proof.
  revert i last. induction p as [|a p IH]; intros i last; simpl.
  - by rewrite Z.add_0_r.
  - rewrite IH. f_equal. lia.
Qed.

Lemma has_char_append (c : Ascii.ascii) (p q : string) :
  has_char c (p +:+ q) = has_char c p || has_char c q.
Proof.
  unfold has_char. induction p as [|a p IH]; [done|]. simpl.
  by rewrite IH, orb_assoc.
Qed.

Lemma substring_append (p q : string) :
  String.substring 0 (String.length p) (p +:+ q) = p.
Proof.
  induction p as [|a p IH]; simpl; [by destruct q|]. by rewrite IH.
Qed.

Lemma splitext_root_no_dot (f : string) :
  has_char "." f = false → splitext_root f = f.
Proof.
  intros Hdot. unfold splitext_root, rfind.
  rewrite (rfind_from_absent "." f) by done.
  assert (∀ i last, 0 ≤ i → -1 ≤ last → -1 ≤ rfind_from "/" f i last) as Hgen.
  { clear. induction f as [|a f IH]; intros i last Hi Hlast; [done|]. simpl.
    apply IH; [lia|]. destruct (Ascii.eqb a "/"); lia. }
  pose proof (Hgen 0 (-1) ltac:(lia) ltac:(lia)) as Hsep.
  destruct (Z.ltb_spec (rfind_from "/" f 0 (-1)) (-1)); [lia|done].
Qed.

Lemma length_append (p q : string) :
  String.length (p +:+ q) = (String.length p + String.length q)%nat.
Proof. induction p as [|a p IH]; simpl; [done|]. by rewrite IH. Qed.

Lemma substring_middle (p q r : string) :
  String.substring (String.length p) (String.length q) (p +:+ q +:+ r) = q.
Proof.
  induction p as [|a p IH]; [exact (substring_append q r)|].
  cbn [String.append String.length String.substring]. exact IH.
Qed.

Lemma substring_front (p q r : string) :
  String.substring 0 (String.length p + String.length q) (p +:+ q +:+ r)
  = p +:+ q.
Proof.
  induction p as [|a p IH]; [exact (substring_append q r)|].
  simpl. by rewrite IH.
Qed.

(** The last "/" of a directory prefix: the prefix is empty or ends with
    "/". *)
Lemma rfind_sep_dir (dir : string) :
  dir = "" ∨ (∃ d, dir = d +:+ "/") →
  rfind_from "/" dir 0 (-1) = Z.of_nat (String.length dir) - 1.
Proof.
  intros [->|[d ->]]; [done|].
  rewrite rfind_from_append, length_append. simpl. lia.
Qed.

(** [os.path.splitext] on a name written as directory prefix, last
    component up to its last dot, and extension. *)
Lemma splitext_root_parts (dir base ext : string) :
  dir = "" ∨ (∃ d, dir = d +:+ "/") →
  has_char "/" base = false →
  has_char "." ext = false → has_char "/" ext = false →
  splitext_root (dir +:+ base +:+ "." +:+ ext)
  = if all_dots base then dir +:+ base +:+ "." +:+ ext else dir +:+ base.
Proof.
  intros Hdir Hbase Hdot Hsep. unfold splitext_root, rfind.
  rewrite (rfind_from_append "/" dir), (rfind_sep_dir dir Hdir).
  rewrite (rfind_from_absent "/" (base +:+ "." +:+ ext))
    by (by rewrite !has_char_append, Hbase, Hsep).
  rewrite (rfind_from_append "." dir), (rfind_from_append "." base).
  change ("." +:+ ext) with (String "." ext).
  cbn [rfind_from]. rewrite Ascii.eqb_refl.
  rewrite (rfind_from_absent "." ext) by done.
  destruct (Z.ltb_spec (Z.of_nat (String.length dir) - 1)
              (0 + Z.of_nat (String.length dir) + Z.of_nat (String.length base)));
    [|lia].
  replace (Z.to_nat (Z.of_nat (String.length dir) - 1 + 1))
    with (String.length dir) by lia.
  replace (Z.to_nat (0 + Z.of_nat (String.length dir)
                     + Z.of_nat (String.length base)
                     - (Z.of_nat (String.length dir) - 1) - 1))
    with (String.length base) by lia.
  replace (Z.to_nat (0 + Z.of_nat (String.length dir)
                     + Z.of_nat (String.length base)))
    with (String.length dir + String.length base)%nat by lia.
  rewrite (substring_middle dir base), (substring_front dir base).
  done.
Qed.

(** X8. The mask of an image takes the name of the image with the
    extension replaced by ".png".  The extension is what follows the last
    dot of the last path component, whatever it is, so that images of one
    class that differ in the extension only have the same mask path
    ("x.tar.gz" gives "x.tar.png").  When that component has only dots
    before its last dot (".hidden", "..jpg"), and when the name has no dot,
    ".png" is added to the whole name. *)
Theorem mask_name_replaces_extension (name dir base ext : string) (mask : ndarray) :
  dir = "" ∨ (∃ d, dir = d +:+ "/") →
  has_char "/" base = false →
  has_char "." ext = false → has_char "/" ext = false →
  (all_dots base = false →
     mask_events output_base_dir name (dir +:+ base +:+ "." +:+ ext) mask
     = [ imwrite (path_join (path_join (path_join output_base_dir name) "masks")
                    (dir +:+ base +:+ ".png")) (times_255 mask);
         print (Processed (dir +:+ base +:+ "." +:+ ext) name) ]) ∧
  (all_dots base = true →
     mask_events output_base_dir name (dir +:+ base +:+ "." +:+ ext) mask
     = [ imwrite (path_join (path_join (path_join output_base_dir name) "masks")
                    (dir +:+ base +:+ "." +:+ ext +:+ ".png")) (times_255 mask);
         print (Processed (dir +:+ base +:+ "." +:+ ext) name) ]) ∧
  (has_char "." base = false →
     mask_events output_base_dir name (dir +:+ base) mask
     = [ imwrite (path_join (path_join (path_join output_base_dir name) "masks")
                    (dir +:+ base +:+ ".png")) (times_255 mask);
         print (Processed (dir +:+ base) name) ]).
Proof.
  intros Hdir Hbase Hdot Hsep.
  pose proof (splitext_root_parts dir base ext Hdir Hbase Hdot Hsep) as Hroot.
  assert (∀ p q r : string, (p +:+ q) +:+ r = p +:+ q +:+ r) as Hassoc.
  { intros p q r. induction p as [|a p IH]; [done|].
    change (String a ((p +:+ q) +:+ r) = String a (p +:+ q +:+ r)).
    by rewrite IH. }
  unfold mask_events. split_and!.
  - intros Hdots. rewrite Hroot, Hdots. by rewrite Hassoc.
  - intros Hdots. rewrite Hroot, Hdots. by rewrite !Hassoc.
  - intros Hnodot. unfold splitext_root, rfind.
    rewrite (rfind_from_append "/" dir), (rfind_sep_dir dir Hdir).
    rewrite (rfind_from_absent "/" base) by done.
    rewrite (rfind_from_append "." dir).
    rewrite (rfind_from_absent "." base) by done.
    assert (∀ i last, last < i → rfind_from "." dir i last
                                 < i + Z.of_nat (String.length dir)) as Hlt.
    { clear. induction dir as [|a dir IH]; intros i last Hi; simpl; [lia|].
      specialize (IH (i + 1) (if Ascii.eqb a "." then i else last)).
      destruct (Ascii.eqb a "."); lia. }
    specialize (Hlt 0 (-1)).
    destruct (Z.ltb_spec (Z.of_nat (String.length dir) - 1)
                (rfind_from "." dir 0 (-1))); [lia|].
    by rewrite Hassoc.
Qed.

(** ** What the call prints *)

Lemma printed_clean_events (imgs : list image) :
  omap printed (imgs ≫= clean_events images_dir output_base_dir)
  = (λ img, Moved_unlabeled (file_name img)) <$> imgs.
Proof.
  induction imgs as [|img imgs IH]; [done|].
  cbn [mbind list_bind]. rewrite omap_app, IH. done.
Qed.

Lemma printed_summary_events (counts : gmap string nat) :
  omap printed (summary_events counts)
  = [Summary_header; Summary_rule]
    ++ ((λ item, Summary_line item.1 item.2) <$> sorted_items counts)
    ++ [Summary_rule; Summary_total (sum_list (sorted_items counts).*2)].
Proof.
  unfold summary_events. rewrite !omap_app. f_equal. f_equal.
  induction (sorted_items counts) as [|item items IH]; [done|].
  rewrite !fmap_cons. cbn [omap list_omap printed]. by rewrite IH.
Qed.

Lemma for_each_process_image_printed (items : list (Z * list annotation))
    (counts counts' : gmap string nat) (evs : list event) :
  for_each items step counts = (Ok tt, counts', evs) →
  Forall2 (reported coco_data) items (omap printed evs).
Proof.
  revert counts evs.
  induction items as [|[iid anns] items IH]; intros counts evs Hloop;
    apply for_each_Ok_inv in Hloop.
  - destruct Hloop as [_ ->]. constructor.
  - destruct Hloop as (counts1 & evs1 & evs2 & Hstep & Hrest & ->).
    apply IH in Hrest. rewrite omap_app.
    apply process_image_outcome in Hstep.
    inversion Hstep as [f Htwo Hf| | | | | | |cid name f h w mask Hne Hall Hname Hf Hhw Hmask];
      simplify_eq.
    + constructor; [|done]. exists f. split; [done|]. by left.
    + constructor; [|done]. exists f. split; [done|]. right.
      exists name. split; [|done]. simpl. by rewrite (class_of_shared anns cid).
Qed.

(** X9. What a call that returns prints, line by line: a notice for every
    unlabeled image record in the order of the records; then one notice for
    every entry of the index in the order of the index, "skipping" for an
    entry with two category ids and "processed", with the class, for the
    others; then the summary. *)
Theorem narration_follows_the_document (counts : gmap string nat) (log : list event) :
  call = Returned counts log →
  ∃ notices,
    omap printed log
    = ((λ img, Moved_unlabeled (file_name img)) <$> unlabeled_images coco_data)
      ++ notices
      ++ [Summary_header; Summary_rule]
      ++ ((λ item, Summary_line item.1 item.2) <$> sorted_items counts)
      ++ [Summary_rule; Summary_total (sum_list (sorted_items counts).*2)] ∧
    Forall2 (reported coco_data) (image_annotations coco_data) notices.
Proof.
  intros (evs & Hloop & ->)%call_Returned.
  exists (omap printed evs). split.
  - change first_events with
      ([makedirs (clean_dir output_base_dir)]
       ++ (unlabeled_images coco_data ≫= clean_events images_dir output_base_dir)).
    rewrite !omap_app, printed_clean_events, printed_summary_events. done.
  - by apply for_each_process_image_printed in Hloop.
Qed.

(** ** A call that raises *)

Lemma for_each_Raise_inv {A} (l : list A) (body : A → M unit)
    (counts counts' : gmap string nat) (e : exn) (evs : list event) :
  for_each l body counts = (Raise e, counts', evs) →
  ∃ l1 x l2 counts1 evs1 evsx,
    l = l1 ++ x :: l2 ∧
    for_each l1 body counts = (Ok tt, counts1, evs1) ∧
    body x counts1 = (Raise e, counts', evsx) ∧
    evs = evs1 ++ evsx.
Proof.
  revert counts evs. induction l as [|y l IH]; intros counts evs; [done|].
  rewrite for_each_cons.
  destruct (body y counts) as [[[[]|e1] counts1] evs1] eqn:Hy.
  - destruct (for_each l body counts1) as [[r counts2] evs2] eqn:Hl.
    intros [= -> <- <-].
    destruct (IH _ _ Hl) as (l1 & x & l2 & c1 & e1 & ex & -> & Hl1 & Hx & ->).
    exists (y :: l1), x, l2, c1, (evs1 ++ e1), ex. split_and!; [done| |done|].
    + by rewrite for_each_cons, Hy, Hl1.
    + by rewrite app_assoc.
  - intros [= <- <- <-]. exists [], y, l, counts, [], evs1.
    split_and!; done.
Qed.

(** X10. A call that raises has stopped at the first entry of the index
    that is not processable: the entries before it were taken to their end
    and reported, the exception is the one of that entry's round, the
    entries after it were not touched and no summary was printed.  What was
    copied and written until then stays.  The document is in the domain
    (no recorded height or width is 0, all are C [int]s, every polygon has
    a vertex and [np.int32] coordinates). *)
Theorem first_unprocessable_entry_decides (e : exn) (log : list event) :
  in_domain coco_data →
  call = Raised e log →
  ∃ before iid anns after counts1 counts2 evs_before evs_last,
    image_annotations coco_data = before ++ (iid, anns) :: after ∧
    Forall (λ item, processable coco_data item.1 item.2) before ∧
    ¬ processable coco_data iid anns ∧
    for_each before step first_counts = (Ok tt, counts1, evs_before) ∧
    Forall2 (reported coco_data) before (omap printed evs_before) ∧
    step (iid, anns) counts1 = (Raise e, counts2, evs_last) ∧
    omap printed evs_last = [] ∧
    log = first_events ++ evs_before ++ evs_last.
Proof.
  intros Hdom. unfold process_coco_dataset. rewrite run_unfold. cbv zeta.
  destruct (for_each _ _ _) as [[[[]|e'] counts2] evs2] eqn:Hloop; [done|].
  intros [= -> <-].
  apply for_each_Raise_inv in Hloop
    as (before & [iid anns] & after & counts1 & evs1 & evsx & Hidx & Hbefore & Hx & ->).
  assert ((iid, anns) ∈ image_annotations coco_data) as Hin
    by (rewrite Hidx; apply elem_of_app; right; left).
  exists before, iid, anns, after, counts1, counts2, evs1, evsx.
  split_and!; try done.
  - apply Forall_forall. intros [iid' anns'] Hin'.
    destruct (for_each_Ok_elem _ _ _ _ _ _ Hbefore Hin')
      as (c1 & c2 & evs' & Hstep & _).
    apply (round_returns_iff iid' anns' c1 Hdom).
    + rewrite Hidx. apply elem_of_app. by left.
    + by eexists _, _.
  - intros (c' & evs' & Hok)%(round_returns_iff iid anns counts1 Hdom Hin).
    congruence.
  - by apply for_each_process_image_printed in Hbefore.
  - apply process_image_outcome in Hx.
    inversion Hx; simplify_eq; done.
Qed.

(** ** No image is lost *)

Lemma filter_none {A} (P : A → Prop) `{∀ x, Decision (P x)} (l : list A) :
  (∀ x, x ∈ l → ¬ P x) → filter P l = [].
Proof.
  induction l as [|x l IH]; intros Hall; [done|].
  rewrite filter_cons, decide_False by (apply Hall; left).
  apply IH. intros y Hy. apply Hall. by right.
Qed.

Lemma filter_distinct_id (imgs : list image) (img : image) :
  NoDup (img_id <$> imgs) → img ∈ imgs →
  filter (λ x, img_id x = img_id img) imgs = [img].
Proof.
  induction imgs as [|x imgs IH]; intros Hnd Hin; [by apply elem_of_nil in Hin|].
  rewrite fmap_cons in Hnd. apply NoDup_cons in Hnd as [Hx Hnd].
  rewrite filter_cons. apply elem_of_cons in Hin as [->|Hin].
  - rewrite decide_True by done. f_equal. apply filter_none.
    intros y Hy Hid. apply Hx. rewrite <- Hid. apply list_elem_of_fmap. eauto.
  - rewrite decide_False; [by apply IH|].
    intros Hid. apply Hx. rewrite Hid. apply list_elem_of_fmap. eauto.
Qed.

(** X11. With distinct image ids, a call that returns has dealt with every
    image record: an image without annotation was copied to the clean
    directory; an image with two category ids was reported as skipped; an
    image with one category was copied to the directory "images" of its
    class and reported as processed. *)
Theorem every_image_is_accounted_for (counts : gmap string nat) (log : list event)
    (img : image) :
  NoDup (img_id <$> images coco_data) →
  call = Returned counts log →
  img ∈ images coco_data →
  (filter (λ a, image_id a = img_id img) (annotations coco_data) = [] ∧
   copy2 (path_join images_dir (file_name img))
         (path_join (clean_dir output_base_dir) (file_name img)) ∈ log ∧
   print (Moved_unlabeled (file_name img)) ∈ log) ∨
  (two_categories (filter (λ a, image_id a = img_id img) (annotations coco_data)) ∧
   print (Skipping_multiple_classes (file_name img)) ∈ log) ∨
  (∃ name,
     class_of coco_data
       (filter (λ a, image_id a = img_id img) (annotations coco_data)) = Some name ∧
     copy2 (path_join images_dir (file_name img))
           (path_join (path_join (path_join output_base_dir name) "images")
              (file_name img)) ∈ log ∧
     print (Processed (file_name img) name) ∈ log).
Proof.
  intros Hnd (evs & Hloop & ->)%call_Returned Himg.
  assert (image_id_to_file coco_data !! img_id img = Some (file_name img)) as Hfile.
  { by rewrite image_id_to_file_lookup, filter_distinct_id. }
  destruct (contains (image_annotations coco_data) (img_id img)) eqn:Hc.
  - right. unfold contains in Hc. apply bool_decide_eq_true in Hc.
    apply list_elem_of_fmap in Hc as ([iid group] & Hid & Hin). simpl in Hid.
    subst iid.
    destruct (for_each_Ok_elem _ _ _ _ _ _ Hloop Hin)
      as (counts1 & counts2 & evsx & Hstep & Hsub).
    assert (∀ ev, ev ∈ evsx → ev ∈ first_events ++ evs ++ summary_events counts)
      as Hlog.
    { intros ev Hev. apply elem_of_app. right. apply elem_of_app. left.
      by apply Hsub. }
    pose proof Hin as [<- _]%elem_of_image_annotations.
    apply process_image_outcome in Hstep.
    inversion Hstep as [f Htwo Hf| | | | | | |cid name f h w mask Hne Hall Hname Hf Hhw Hmask];
      simplify_eq.
    + left. split; [done|]. apply Hlog. left.
    + right. exists name. split_and!.
      * by rewrite (class_of_shared _ cid).
      * apply Hlog. unfold copy_events, dir_events. set_solver.
      * apply Hlog. unfold mask_events. set_solver.
  - left. split_and!.
    + apply filter_none. intros a Ha Hid.
      assert (contains (image_annotations coco_data) (img_id img) = true)
        by (apply contains_image_annotations; eauto).
      congruence.
    + apply elem_of_app. left. right. apply list_elem_of_bind. exists img.
      split; [left|]. by apply list_elem_of_filter.
    + apply elem_of_app. left. right. apply list_elem_of_bind. exists img.
      split; [right; left|]. by apply list_elem_of_filter.
Qed.

End Step.

End Raster.

(** * The claims on the sample documents *)

(** Counterexample to C4 as stated: a polygon of two points, which is fewer
    than three coordinate pairs, raises nothing and is rasterized. *)
Lemma two_point_polygon_is_rasterized :
  (length [0; 0; 1; 1] / 2 < 3)%nat ∧
  create_binary_mask even_odd_fill [0; 0; 1; 1] 3 3
  = Ok {| nrows := 3; ncols := 3; cells := [[1; 0; 0]; [0; 1; 0]; [0; 0; 0]] |}.
Proof. split; [vm_compute; lia|reflexivity]. Qed.

Lemma create_binary_mask_checks_parity_only_witness :
  extent 3 ∧ Forall int32 [0; 0; 1] ∧ Forall int32 [0; 0; 1; 1] ∧
  Nat.Odd (length [0; 0; 1]) ∧
  create_binary_mask even_odd_fill [0; 0; 1] 3 3 = Raise (ValueError_reshape 3) ∧
  Nat.Even (length [0; 0; 1; 1]) ∧ [0; 0; 1; 1] ≠ [] ∧
  ∃ mask, create_binary_mask even_odd_fill [0; 0; 1; 1] 3 3 = Ok mask ∧
    nrows mask = Z.to_nat 3 ∧ ncols mask = Z.to_nat 3 ∧
    well_shaped mask ∧ binary mask.
Proof.
  assert (extent 3) as H0 by (unfold extent; lia).
  assert (Forall int32 [0; 0; 1]) as H3 by int32_list.
  assert (Forall int32 [0; 0; 1; 1]) as H4 by int32_list.
  assert (Nat.Odd (length [0; 0; 1])) as Hodd by (exists 1%nat; reflexivity).
  assert (Nat.Even (length [0; 0; 1; 1])) as Heven by (exists 2%nat; reflexivity).
  assert ([0; 0; 1; 1] ≠ []) as Hne by discriminate.
  refine (conj H0 (conj H3 (conj H4 (conj Hodd (conj _ (conj Heven (conj Hne _))))))).
  - exact (proj1 (create_binary_mask_checks_parity_only
                    even_odd_fill [0; 0; 1] 3 3 H0 H0 H3) Hodd).
  - exact (proj2 (create_binary_mask_checks_parity_only
                    even_odd_fill [0; 0; 1; 1] 3 3 H0 H0 H4) Heven Hne).
Defined.

(** Counterexample to C6 as stated: the image id 1 and the category id 1
    occur twice and the category ids 7 and 8 are unknown, yet the tables are
    built and the call returns. *)
Lemma duplicates_and_unknown_ids_are_accepted :
  img_id <$> images unchecked_coco = [1; 1] ∧
  cat_id <$> categories unchecked_coco = [1; 1] ∧
  category_id <$> annotations unchecked_coco = [7; 8] ∧
  process_coco_dataset even_odd_fill unchecked_coco "images" "out"
  = Returned ∅
      [ makedirs "out/clean";
        print (Skipping_multiple_classes "b.jpg");
        print Summary_header; print Summary_rule;
        print Summary_rule; print (Summary_total 0) ].
Proof. split_and!; reflexivity. Qed.

Lemma assigned_iff_one_category_witness :
  (1, annotations mixed_coco) ∈ image_annotations mixed_coco ∧
  process_image even_odd_fill mixed_coco "images" "out"
    (1, annotations mixed_coco) ∅
  = (Ok tt, ∅, [print (Skipping_multiple_classes "a.jpg")]) ∧
  two_categories (annotations mixed_coco) ∧
  ¬ shares_one_category (annotations mixed_coco) ∧
  (1, annotations cat_coco) ∈ image_annotations cat_coco ∧
  (∀ a, a ∈ annotations cat_coco → category_id a = 1) ∧
  shares_one_category (annotations cat_coco) ∧
  extent 4 ∧
  (∀ seg, seg ∈ all_polygons (annotations cat_coco) →
     drawable seg ∧ Nat.Even (length seg)) ∧
  ∃ mask,
    process_image even_odd_fill cat_coco "images" "out"
      (1, annotations cat_coco) ∅
    = (Ok tt, bump "cat" ∅,
       copy_events "images" "out" "cat" "a.jpg"
       ++ mask_events "out" "cat" "a.jpg" mask).
Proof.
  assert ((1, annotations mixed_coco) ∈ image_annotations mixed_coco) as Hin
    by (vm_compute; left).
  assert (two_categories (annotations mixed_coco)) as Htwo.
  { eexists _, _. split_and!; [left|right; left|]. simpl. lia. }
  assert ((1, annotations cat_coco) ∈ image_annotations cat_coco) as Hin'
    by (vm_compute; left).
  assert (∀ a, a ∈ annotations cat_coco → category_id a = 1) as Hall
    by (intros a Ha; members Ha).
  assert (extent 4) as Hext by (unfold extent; lia).
  assert (∀ seg, seg ∈ all_polygons (annotations cat_coco) →
            drawable seg ∧ Nat.Even (length seg)) as Hsegs.
  { intros seg Hseg. vm_compute in Hseg.
    repeat (apply elem_of_cons in Hseg as [->|Hseg];
            [split; [split; [done|int32_list]|by apply Nat.even_spec]|]).
    by apply elem_of_nil in Hseg. }
  destruct (assigned_iff_one_category even_odd_fill mixed_coco "images" "out"
              1 (annotations mixed_coco) ∅ ∅ (Ok tt)
              [print (Skipping_multiple_classes "a.jpg")] Hin eq_refl)
    as (_ & _ & _ & Hiff).
  destruct (process_image even_odd_fill cat_coco "images" "out"
              (1, annotations cat_coco) ∅) as [[r counts'] evs] eqn:Hstep.
  destruct (assigned_iff_one_category even_odd_fill cat_coco "images" "out"
              1 (annotations cat_coco) ∅ counts' r evs Hin' Hstep)
    as (_ & _ & Hassigned & Hiff').
  destruct (Hassigned 1 {| cat_id := 1; cat_name := "cat" |}
              {| img_id := 1; file_name := "a.jpg"; height := 4; width := 4 |}
              Hall eq_refl eq_refl Hext Hext Hsegs)
    as (-> & mask & -> & ->).
  refine (conj Hin (conj eq_refl (conj Htwo (conj _ (conj Hin' (conj Hall
           (conj _ (conj Hext (conj Hsegs (ex_intro _ mask eq_refl)))))))))).
  - intros Hone. apply (proj1 (Hiff eq_refl)) in Hone as (name & f & mask' & _ & Hevs).
    discriminate Hevs.
  - apply (Hiff' eq_refl). by eexists _, _, mask.
Defined.

Lemma combined_mask_is_union_witness :
  process_image even_odd_fill cat_coco "images" "out" (1, annotations cat_coco) ∅
  = (Ok tt, {["cat" := 1%nat]},
     [ makedirs "out/cat/images"; makedirs "out/cat/masks";
       copy2 "images/a.jpg" "out/cat/images/a.jpg";
       imwrite "out/cat/masks/a.png"
         {| nrows := 4; ncols := 4;
            cells := [[255; 255; 255; 0]; [255; 255; 255; 255];
                      [255; 255; 255; 255]; [0; 0; 0; 255]] |};
       print (Processed "a.jpg" "cat") ]) ∧
  shares_one_category (annotations cat_coco) ∧
  ∃ name f img masks mask,
    last (filter (λ img, img_id img = 1) (images cat_coco)) = Some img ∧
    [ makedirs "out/cat/images"; makedirs "out/cat/masks";
      copy2 "images/a.jpg" "out/cat/images/a.jpg";
      imwrite "out/cat/masks/a.png"
        {| nrows := 4; ncols := 4;
           cells := [[255; 255; 255; 0]; [255; 255; 255; 255];
                     [255; 255; 255; 255]; [0; 0; 0; 255]] |};
      print (Processed "a.jpg" "cat") ]
    = copy_events "images" "out" name f ++ mask_events "out" name f mask ∧
    rasterize_all even_odd_fill (all_polygons (annotations cat_coco))
      (height img) (width img)
    = Ok masks ∧
    accumulate (height img) (width img) masks = Ok mask ∧
    0 ≤ height img ∧ 0 ≤ width img ∧
    nrows mask = Z.to_nat (height img) ∧ ncols mask = Z.to_nat (width img) ∧
    well_shaped mask ∧ binary mask ∧
    ∀ r c, (r < Z.to_nat (height img))%nat → (c < Z.to_nat (width img))%nat →
      cell mask r c = Some 1 ↔
      ∃ seg poly, seg ∈ all_polygons (annotations cat_coco) ∧
                  reshape_pairs seg = Ok poly ∧
                  even_odd_fill poly (Z.of_nat c) (Z.of_nat r) = true.
Proof.
  assert (shares_one_category (annotations cat_coco)) as Hone.
  { exists 1. intros a Ha. repeat (apply elem_of_cons in Ha as [->|Ha]; [done|]).
    by apply elem_of_nil in Ha. }
  refine (conj eq_refl (conj Hone _)).
  exact (combined_mask_is_union even_odd_fill cat_coco "images" "out"
           1 (annotations cat_coco) ∅ _ _ eq_refl Hone).
Defined.

Lemma unlabeled_images_go_to_clean_witness :
  contains (image_annotations cat_coco) 2 = false ∧
  move_unlabeled cat_coco "images" "out"
    {| img_id := 2; file_name := "b.jpg"; height := 3; width := 3 |} ∅
  = (Ok tt, bump "clean" ∅,
     [copy2 "images/b.jpg" "out/clean/b.jpg"; print (Moved_unlabeled "b.jpg")]) ∧
  events_of (process_coco_dataset even_odd_fill cat_coco "images" "out")
  = [ makedirs "out/clean"; copy2 "images/b.jpg" "out/clean/b.jpg";
      print (Moved_unlabeled "b.jpg"); makedirs "out/cat/images";
      makedirs "out/cat/masks"; copy2 "images/a.jpg" "out/cat/images/a.jpg";
      imwrite "out/cat/masks/a.png"
        {| nrows := 4; ncols := 4;
           cells := [[255; 255; 255; 0]; [255; 255; 255; 255];
                     [255; 255; 255; 255]; [0; 0; 0; 255]] |};
      print (Processed "a.jpg" "cat"); print Summary_header;
      print Summary_rule; print (Summary_line "cat" 1);
      print (Summary_line "clean" 1); print Summary_rule;
      print (Summary_total 2) ] ∧
  omap moved (events_of (process_coco_dataset even_odd_fill cat_coco "images" "out"))
  = file_name <$> unlabeled_images cat_coco ∧
  file_name <$> unlabeled_images cat_coco = ["b.jpg"] ∧
  (∃ iid anns name f,
     (iid, anns) ∈ image_annotations cat_coco ∧
     class_of cat_coco anns = Some name ∧
     image_id_to_file cat_coco !! iid = Some f ∧
     "out/cat/masks/a.png"
     = path_join (path_join (path_join "out" name) "masks")
         (splitext_root f +:+ ".png") ∧
     ∀ img, img ∈ unlabeled_images cat_coco → img_id img ≠ iid) ∧
  ({["cat" := 1%nat; "clean" := 1%nat]} : gmap string nat) !!! "clean"
  = (length (unlabeled_images cat_coco)
     + length (images_of_class cat_coco "clean"))%nat.
Proof.
  destruct (unlabeled_images_go_to_clean even_odd_fill cat_coco "images" "out")
    as (Hone & _ & _ & Hmoved & Hmask & Hcount).
  assert (contains (image_annotations cat_coco) 2 = false) as Hc by reflexivity.
  refine (conj Hc (conj _ (conj eq_refl (conj Hmoved (conj eq_refl
           (conj _ (Hcount _ _ eq_refl))))))).
  - exact (Hone {| img_id := 2; file_name := "b.jpg"; height := 3; width := 3 |}
             ∅ Hc).
  - apply (Hmask "out/cat/masks/a.png"
             {| nrows := 4; ncols := 4;
                cells := [[255; 255; 255; 0]; [255; 255; 255; 255];
                          [255; 255; 255; 255]; [0; 0; 0; 255]] |}).
    do 6 right. left.
Defined.

Lemma unknown_category_is_fatal_witness :
  annotations dangling_coco ≠ [] ∧
  (∀ a, a ∈ annotations dangling_coco → category_id a = 7) ∧
  category_map dangling_coco !! 7 = None ∧
  (1, annotations dangling_coco) ∈ image_annotations dangling_coco ∧
  process_image even_odd_fill dangling_coco "images" "out"
    (1, annotations dangling_coco) ∅
  = (Raise (KeyError 7), ∅, []) ∧
  process_coco_dataset even_odd_fill dangling_coco "images" "out"
  = Raised (KeyError 7) [makedirs "out/clean"] ∧
  ∃ e log,
    process_coco_dataset even_odd_fill dangling_coco "images" "out" = Raised e log.
Proof.
  assert (annotations dangling_coco ≠ []) as Hne by discriminate.
  assert (∀ a, a ∈ annotations dangling_coco → category_id a = 7) as Hall.
  { intros a Ha. repeat (apply elem_of_cons in Ha as [->|Ha]; [done|]).
    by apply elem_of_nil in Ha. }
  assert (category_map dangling_coco !! 7 = None) as Hname by reflexivity.
  assert ((1, annotations dangling_coco) ∈ image_annotations dangling_coco) as Hin
    by (vm_compute; left).
  destruct (unknown_category_is_fatal even_odd_fill dangling_coco "images" "out"
              1 7 (annotations dangling_coco) ∅ Hne Hall Hname)
    as (Hstep & Hcall & _).
  exact (conj Hne (conj Hall (conj Hname (conj Hin
           (conj Hstep (conj eq_refl (Hcall Hin))))))).
Defined.

Lemma tables_are_built_unchecked_witness :
  (5, annotations orphan_coco) ∈ image_annotations orphan_coco ∧
  image_id_to_file orphan_coco !! 5 = None ∧
  (∀ counts, ∃ key counts' evs,
     process_image even_odd_fill orphan_coco "images" "out"
       (5, annotations orphan_coco) counts
     = (Raise (KeyError key), counts', evs)) ∧
  process_coco_dataset even_odd_fill orphan_coco "images" "out"
  = Raised (KeyError 5)
      [ makedirs "out/clean"; copy2 "images/a.jpg" "out/clean/a.jpg";
        print (Moved_unlabeled "a.jpg"); makedirs "out/cat/images";
        makedirs "out/cat/masks" ] ∧
  two_categories (annotations unchecked_coco) ∧
  image_id_to_file unchecked_coco !! 1 = Some "b.jpg" ∧
  category_map unchecked_coco !! 1 = Some "dog" ∧
  process_image even_odd_fill unchecked_coco "images" "out"
    (1, annotations unchecked_coco) ∅
  = (Ok tt, ∅, [print (Skipping_multiple_classes "b.jpg")]).
Proof.
  assert ((5, annotations orphan_coco) ∈ image_annotations orphan_coco) as Hin
    by (vm_compute; left).
  assert (image_id_to_file orphan_coco !! 5 = None) as Hfile by reflexivity.
  assert (two_categories (annotations unchecked_coco)) as Htwo.
  { eexists _, _. split_and!; [left|right; left|]. simpl. lia. }
  assert (image_id_to_file unchecked_coco !! 1 = Some "b.jpg") as Hb by reflexivity.
  destruct (tables_are_built_unchecked even_odd_fill orphan_coco "images" "out")
    as (_ & _ & _ & Horphan & _).
  destruct (tables_are_built_unchecked even_odd_fill unchecked_coco "images" "out")
    as (_ & _ & _ & _ & Hskip).
  exact (conj Hin (conj Hfile (conj (proj1 (Horphan _ _ Hin Hfile)) (conj eq_refl
           (conj Htwo (conj Hb (conj eq_refl (Hskip 1 _ "b.jpg" ∅ Htwo Hb)))))))).
Defined.


(** A failure while rasterizing: the polygon of [odd_coco] cannot be
    reshaped.  The round had made the directories, copied the image and
    counted it; the exception ends the call, and the counts are not
    returned. *)
Example mask_failure_ends_the_call :
  process_image even_odd_fill odd_coco "images" "out" (1, annotations odd_coco) ∅
  = (Raise (ValueError_reshape 3), {["cat" := 1%nat]},
     [ makedirs "out/cat/images"; makedirs "out/cat/masks";
       copy2 "images/a.jpg" "out/cat/images/a.jpg" ]) ∧
  process_coco_dataset even_odd_fill odd_coco "images" "out"
  = Raised (ValueError_reshape 3)
      [ makedirs "out/clean"; makedirs "out/cat/images"; makedirs "out/cat/masks";
        copy2 "images/a.jpg" "out/cat/images/a.jpg" ].
Proof. split; reflexivity. Qed.

Lemma counts_reflect_completed_images_witness :
  process_coco_dataset even_odd_fill cat_coco "images" "out"
  = Returned {["cat" := 1%nat; "clean" := 1%nat]}
      (events_of (process_coco_dataset even_odd_fill cat_coco "images" "out")) ∧
  (∀ k, ({["cat" := 1%nat; "clean" := 1%nat]} : gmap string nat) !!! k
        = sum_list_with (finished k)
            (events_of (process_coco_dataset even_odd_fill cat_coco "images" "out"))) ∧
  (1, annotations odd_coco) ∈ image_annotations odd_coco ∧
  is_Ok (process_image even_odd_fill odd_coco "images" "out"
           (1, annotations odd_coco) ∅).1.1 = false ∧
  ∃ e log',
    process_coco_dataset even_odd_fill odd_coco "images" "out" = Raised e log'.
Proof.
  assert (process_coco_dataset even_odd_fill cat_coco "images" "out"
          = Returned {["cat" := 1%nat; "clean" := 1%nat]}
              (events_of (process_coco_dataset even_odd_fill cat_coco "images" "out")))
    as Hcall by reflexivity.
  assert ((1, annotations odd_coco) ∈ image_annotations odd_coco) as Hin
    by (vm_compute; left).
  assert (is_Ok (process_image even_odd_fill odd_coco "images" "out"
                   (1, annotations odd_coco) ∅).1.1 = false) as Hraise
    by reflexivity.
  destruct (counts_reflect_completed_images even_odd_fill cat_coco "images" "out")
    as (Hret & _).
  destruct (counts_reflect_completed_images even_odd_fill odd_coco "images" "out")
    as (_ & Hfatal).
  destruct (Hret _ _ Hcall) as (_ & Hcounts).
  exact (conj Hcall (conj Hcounts (conj Hin (conj Hraise
           (Hfatal _ _ Hin Hraise))))).
Defined.

Lemma one_count_per_image_witness :
  class_of cat_coco (annotations cat_coco) = Some "cat" ∧
  (∃ evs,
     process_image even_odd_fill cat_coco "images" "out"
       (1, annotations cat_coco) ∅
     = (Ok tt, {["cat" := 1%nat]}, evs)) ∧
  ({["cat" := 1%nat]} : gmap string nat) = bump "cat" ∅ ∧
  (∃ log,
     process_coco_dataset even_odd_fill cat_coco "images" "out"
     = Returned {["cat" := 1%nat; "clean" := 1%nat]} log) ∧
  (∀ k, ({["cat" := 1%nat; "clean" := 1%nat]} : gmap string nat) !!! k
        = ((if decide ("clean" = k) then length (unlabeled_images cat_coco) else 0)
           + length (images_of_class cat_coco k))%nat) ∧
  length (annotations cat_coco) = 2%nat ∧
  length (images_of_class cat_coco "cat") = 1%nat.
Proof.
  assert (class_of cat_coco (annotations cat_coco) = Some "cat") as Hclass
    by reflexivity.
  destruct (one_count_per_image even_odd_fill cat_coco "images" "out")
    as (Hstep & Hcall).
  destruct (Hstep 1 (annotations cat_coco) "cat" ∅ _ _ Hclass eq_refl)
    as (Hbump & _).
  destruct (Hcall _ _ eq_refl) as (Hcounts & _ & _ & _).
  exact (conj Hclass (conj (ex_intro _ _ eq_refl) (conj Hbump
           (conj (ex_intro _ _ eq_refl) (conj Hcounts (conj eq_refl eq_refl)))))).
Defined.

Lemma clean_category_shares_key_witness :
  process_coco_dataset even_odd_fill clean_coco "images" "out"
  = Returned {["clean" := 2%nat]}
      (events_of (process_coco_dataset even_odd_fill clean_coco "images" "out")) ∧
  length (unlabeled_images clean_coco) = 1%nat ∧
  length (images_of_class clean_coco "clean") = 1%nat ∧
  ({["clean" := 2%nat]} : gmap string nat) !!! "clean"
  = (length (unlabeled_images clean_coco)
     + length (images_of_class clean_coco "clean"))%nat ∧
  copy2 "images/b.jpg" "out/clean/b.jpg"
    ∈ events_of (process_coco_dataset even_odd_fill clean_coco "images" "out") ∧
  copy2 "images/a.jpg" "out/clean/images/a.jpg"
    ∈ events_of (process_coco_dataset even_odd_fill clean_coco "images" "out").
Proof.
  assert (process_coco_dataset even_odd_fill clean_coco "images" "out"
          = Returned {["clean" := 2%nat]}
              (events_of (process_coco_dataset even_odd_fill clean_coco "images" "out")))
    as Hcall by reflexivity.
  destruct (clean_category_shares_key even_odd_fill clean_coco "images" "out"
              _ _ Hcall) as (Hcount & _ & _ & Hunl & Hlab).
  refine (conj Hcall (conj eq_refl (conj eq_refl (conj Hcount (conj _ _))))).
  - apply (Hunl {| img_id := 2; file_name := "b.jpg"; height := 3; width := 3 |}).
    vm_compute. left.
  - destruct (Hlab 1 (annotations clean_coco)) as (f & Hf & Hcopy).
    { vm_compute. left. }
    assert (f = "a.jpg") as -> by (vm_compute in Hf; congruence).
    exact Hcopy.
Defined.

(** * The further properties on the sample documents *)

Lemma create_binary_mask_result_witness :
  create_binary_mask even_odd_fill [0; 0; 1; 1] (-1) 3
  = Raise ValueError_negative_dimensions ∧
  extent 3 ∧ drawable [0; 0; 1] ∧ Nat.Odd (length [0; 0; 1]) ∧
  create_binary_mask even_odd_fill [0; 0; 1] 3 3 = Raise (ValueError_reshape 3) ∧
  drawable [0; 0; 1; 1] ∧ Nat.Even (length [0; 0; 1; 1]) ∧
  ∃ poly mask,
    reshape_pairs [0; 0; 1; 1] = Ok poly ∧
    length poly = (length [0; 0; 1; 1] / 2)%nat ∧
    create_binary_mask even_odd_fill [0; 0; 1; 1] 3 3 = Ok mask ∧
    ∀ r c, (r < Z.to_nat 3)%nat → (c < Z.to_nat 3)%nat →
      cell mask r c
      = Some (if even_odd_fill poly (Z.of_nat c) (Z.of_nat r) then 1 else 0).
Proof.
  assert (-1 < 0 ∨ 3 < 0) as Hneg by (left; lia).
  assert (extent 3) as H0 by (unfold extent; lia).
  assert (drawable [0; 0; 1]) as H3 by (split; [done|int32_list]).
  assert (drawable [0; 0; 1; 1]) as H4 by (split; [done|int32_list]).
  assert (Nat.Odd (length [0; 0; 1])) as Hodd by (exists 1%nat; reflexivity).
  assert (Nat.Even (length [0; 0; 1; 1])) as Heven by (exists 2%nat; reflexivity).
  refine (conj _ (conj H0 (conj H3 (conj Hodd (conj _ (conj H4 (conj Heven _))))))).
  - exact (proj1 (create_binary_mask_result even_odd_fill [0; 0; 1; 1] (-1) 3) Hneg).
  - exact (proj1 (proj2 (create_binary_mask_result even_odd_fill [0; 0; 1] 3 3))
             H0 H0 H3 Hodd).
  - exact (proj2 (proj2 (create_binary_mask_result even_odd_fill [0; 0; 1; 1] 3 3))
             H0 H0 H4 Heven).
Defined.

Lemma returns_iff_processable_witness :
  in_domain cat_coco ∧ in_domain odd_coco ∧
  (1, annotations cat_coco) ∈ image_annotations cat_coco ∧
  processable cat_coco 1 (annotations cat_coco) ∧
  (∃ counts log,
     process_coco_dataset even_odd_fill cat_coco "images" "out"
     = Returned counts log) ∧
  (1, annotations odd_coco) ∈ image_annotations odd_coco ∧
  ¬ processable odd_coco 1 (annotations odd_coco) ∧
  ∃ e log,
    process_coco_dataset even_odd_fill odd_coco "images" "out" = Raised e log.
Proof.
  assert ((1, annotations cat_coco) ∈ image_annotations cat_coco) as Hin
    by (vm_compute; left).
  assert ((1, annotations odd_coco) ∈ image_annotations odd_coco) as Hin'
    by (vm_compute; left).
  assert (in_domain cat_coco) as Hdom by in_domain_sample.
  assert (in_domain odd_coco) as Hdom' by in_domain_sample.
  destruct (returns_iff_processable even_odd_fill cat_coco "images" "out" Hdom)
    as (Hround & Hcall & _).
  destruct (returns_iff_processable even_odd_fill odd_coco "images" "out" Hdom')
    as (Hround' & _ & Hraised).
  assert (∀ iid anns, (iid, anns) ∈ image_annotations cat_coco →
            processable cat_coco iid anns) as Hall.
  { apply Hcall. eexists _, _. reflexivity. }
  assert (¬ processable odd_coco 1 (annotations odd_coco)) as Hnot.
  { intros (counts' & evs & Hok)%(Hround' 1 (annotations odd_coco) ∅ Hin').
    discriminate Hok. }
  refine (conj Hdom (conj Hdom' (conj Hin (conj (Hall _ _ Hin)
           (conj (proj2 Hcall Hall) (conj Hin' (conj Hnot _))))))).
  apply Hraised. by exists 1, (annotations odd_coco).
Defined.

Lemma round_exceptions_witness :
  in_domain odd_coco ∧
  (1, annotations odd_coco) ∈ image_annotations odd_coco ∧
  process_image even_odd_fill odd_coco "images" "out" (1, annotations odd_coco) ∅
  = (Raise (ValueError_reshape 3), {["cat" := 1%nat]},
     [ makedirs "out/cat/images"; makedirs "out/cat/masks";
       copy2 "images/a.jpg" "out/cat/images/a.jpg" ]) ∧
  ∃ name f img,
    last (filter (λ img, img_id img = 1) (images odd_coco)) = Some img ∧
    ({["cat" := 1%nat]} : gmap string nat) = bump name ∅ ∧
    [ makedirs "out/cat/images"; makedirs "out/cat/masks";
      copy2 "images/a.jpg" "out/cat/images/a.jpg" ]
    = copy_events "images" "out" name f ∧
    ((ValueError_reshape 3 = ValueError_negative_dimensions
      ∧ (height img < 0 ∨ width img < 0)) ∨
     (∃ seg, ValueError_reshape 3 = ValueError_reshape (length seg) ∧
        0 < height img ∧ 0 < width img ∧
        first_odd (all_polygons (annotations odd_coco)) = Some seg)).
Proof.
  assert ((1, annotations odd_coco) ∈ image_annotations odd_coco) as Hin
    by (vm_compute; left).
  assert (in_domain odd_coco) as Hdom by in_domain_sample.
  refine (conj Hdom (conj Hin (conj eq_refl _))).
  destruct (round_exceptions even_odd_fill odd_coco "images" "out"
              1 (annotations odd_coco) ∅ _ _ _ Hdom Hin eq_refl)
    as [(He & _)|[(cid & He & _)|Hmask]]; [discriminate He..|exact Hmask].
Defined.

Lemma summary_lists_classes_in_order_witness :
  process_coco_dataset even_odd_fill cat_coco "images" "out"
  = Returned {["cat" := 1%nat; "clean" := 1%nat]}
      (events_of (process_coco_dataset even_odd_fill cat_coco "images" "out")) ∧
  sorted_items {["cat" := 1%nat; "clean" := 1%nat]}
  = [("cat", 1%nat); ("clean", 1%nat)] ∧
  (∃ evs,
     events_of (process_coco_dataset even_odd_fill cat_coco "images" "out")
     = evs ++ summary_events {["cat" := 1%nat; "clean" := 1%nat]}) ∧
  StronglySorted item_le (sorted_items {["cat" := 1%nat; "clean" := 1%nat]}) ∧
  NoDup (sorted_items {["cat" := 1%nat; "clean" := 1%nat]}).*1 ∧
  (∀ k n, (k, n) ∈ sorted_items {["cat" := 1%nat; "clean" := 1%nat]} ↔
          ({["cat" := 1%nat; "clean" := 1%nat]} : gmap string nat) !! k = Some n) ∧
  (∀ k, is_Some (({["cat" := 1%nat; "clean" := 1%nat]} : gmap string nat) !! k) ↔
        (0 < ({["cat" := 1%nat; "clean" := 1%nat]} : gmap string nat) !!! k)%nat) ∧
  (∀ k, is_Some (({["cat" := 1%nat; "clean" := 1%nat]} : gmap string nat) !! k) →
     k = "clean" ∨ ∃ cat, cat ∈ categories cat_coco ∧ cat_name cat = k) ∧
  (sum_list (sorted_items {["cat" := 1%nat; "clean" := 1%nat]}).*2
   + length (skipped_entries cat_coco)
   = length (unlabeled_images cat_coco) + length (image_annotations cat_coco))%nat.
Proof.
  assert (process_coco_dataset even_odd_fill cat_coco "images" "out"
          = Returned {["cat" := 1%nat; "clean" := 1%nat]}
              (events_of (process_coco_dataset even_odd_fill cat_coco "images" "out")))
    as Hcall by reflexivity.
  refine (conj Hcall (conj eq_refl _)).
  exact (summary_lists_classes_in_order even_odd_fill cat_coco "images" "out"
           _ _ Hcall).
Defined.

Lemma written_mask_is_black_and_white_witness :
  process_image even_odd_fill cat_coco "images" "out" (1, annotations cat_coco) ∅
  = (Ok tt, {["cat" := 1%nat]},
     [ makedirs "out/cat/images"; makedirs "out/cat/masks";
       copy2 "images/a.jpg" "out/cat/images/a.jpg";
       imwrite "out/cat/masks/a.png"
         {| nrows := 4; ncols := 4;
            cells := [[255; 255; 255; 0]; [255; 255; 255; 255];
                      [255; 255; 255; 255]; [0; 0; 0; 255]] |};
       print (Processed "a.jpg" "cat") ]) ∧
  ∃ cid name f img,
    (∀ a, a ∈ annotations cat_coco → category_id a = cid) ∧
    category_map cat_coco !! cid = Some name ∧
    image_id_to_file cat_coco !! 1 = Some f ∧
    last (filter (λ img, img_id img = 1) (images cat_coco)) = Some img ∧
    "out/cat/masks/a.png"
    = path_join (path_join (path_join "out" name) "masks")
        (splitext_root f +:+ ".png") ∧
    nrows {| nrows := 4; ncols := 4;
             cells := [[255; 255; 255; 0]; [255; 255; 255; 255];
                       [255; 255; 255; 255]; [0; 0; 0; 255]] |}
    = Z.to_nat (height img) ∧
    ncols {| nrows := 4; ncols := 4;
             cells := [[255; 255; 255; 0]; [255; 255; 255; 255];
                       [255; 255; 255; 255]; [0; 0; 0; 255]] |}
    = Z.to_nat (width img) ∧
    well_shaped {| nrows := 4; ncols := 4;
                   cells := [[255; 255; 255; 0]; [255; 255; 255; 255];
                             [255; 255; 255; 255]; [0; 0; 0; 255]] |} ∧
    ∀ r c, (r < Z.to_nat (height img))%nat → (c < Z.to_nat (width img))%nat →
      (cell {| nrows := 4; ncols := 4;
               cells := [[255; 255; 255; 0]; [255; 255; 255; 255];
                         [255; 255; 255; 255]; [0; 0; 0; 255]] |} r c = Some 0
       ∨ cell {| nrows := 4; ncols := 4;
                 cells := [[255; 255; 255; 0]; [255; 255; 255; 255];
                           [255; 255; 255; 255]; [0; 0; 0; 255]] |} r c = Some 255) ∧
      (cell {| nrows := 4; ncols := 4;
               cells := [[255; 255; 255; 0]; [255; 255; 255; 255];
                         [255; 255; 255; 255]; [0; 0; 0; 255]] |} r c = Some 255 ↔
       ∃ seg poly, seg ∈ all_polygons (annotations cat_coco) ∧
                   reshape_pairs seg = Ok poly ∧
                   even_odd_fill poly (Z.of_nat c) (Z.of_nat r) = true).
Proof.
  refine (conj eq_refl _).
  refine (written_mask_is_black_and_white even_odd_fill cat_coco "images" "out"
            1 (annotations cat_coco) ∅ _ _ _ _ _ eq_refl _).
  do 3 right. left.
Defined.

Lemma combined_mask_depends_on_polygon_set_witness :
  (∀ seg, seg ∈ [square; triangle] ↔ seg ∈ [triangle; square; square]) ∧
  result_bind (np_zeros 4 4)
    (λ zeros, or_polygons even_odd_fill zeros [square; triangle] 4 4)
  = Ok {| nrows := 4; ncols := 4;
          cells := [[1; 1; 1; 0]; [1; 1; 1; 1]; [1; 1; 1; 1]; [0; 0; 0; 1]] |} ∧
  result_bind (np_zeros 4 4)
    (λ zeros, or_polygons even_odd_fill zeros [triangle; square; square] 4 4)
  = Ok {| nrows := 4; ncols := 4;
          cells := [[1; 1; 1; 0]; [1; 1; 1; 1]; [1; 1; 1; 1]; [0; 0; 0; 1]] |}.
Proof.
  assert (∀ seg, seg ∈ [square; triangle] ↔ seg ∈ [triangle; square; square])
    as Hsame by set_solver.
  refine (conj Hsame (conj eq_refl _)).
  exact (combined_mask_depends_on_polygon_set even_odd_fill
           [square; triangle] [triangle; square; square] 4 4 _ Hsame eq_refl).
Defined.

Lemma index_groups_by_first_occurrence_witness :
  (image_annotations late_coco).*1 = [1; 2; 3] ∧
  (image_annotations late_coco).*1
  = reverse (remove_dups (reverse (image_id <$> annotations late_coco))) ∧
  mjoin (image_annotations late_coco).*2 ≡ₚ annotations late_coco ∧
  (1, annotations cat_coco) ∈ image_annotations cat_coco ∧
  annotations cat_coco ≠ [] ∧
  ∀ a, a ∈ annotations cat_coco → a ∈ annotations cat_coco ∧ image_id a = 1.
Proof.
  assert ((1, annotations cat_coco) ∈ image_annotations cat_coco) as Hin
    by (vm_compute; left).
  destruct (index_groups_by_first_occurrence late_coco) as (Hkeys & _ & Hjoin & _).
  destruct (index_groups_by_first_occurrence cat_coco) as (_ & _ & _ & Hgroups).
  exact (conj eq_refl (conj Hkeys (conj Hjoin (conj Hin (Hgroups _ _ Hin))))).
Defined.

Lemma writes_stay_below_output_witness :
  (∀ img, img ∈ images cat_coco → starts_with_sep (file_name img) = false) ∧
  (∀ cat, cat ∈ categories cat_coco → starts_with_sep (cat_name cat) = false) ∧
  Forall (confined "out")
    (events_of (process_coco_dataset even_odd_fill cat_coco "images" "out")).
Proof.
  assert (∀ img, img ∈ images cat_coco → starts_with_sep (file_name img) = false)
    as Hfiles by (intros img Himg; members Himg).
  assert (∀ cat, cat ∈ categories cat_coco → starts_with_sep (cat_name cat) = false)
    as Hclasses by (intros cat Hcat; members Hcat).
  exact (conj Hfiles (conj Hclasses
           (writes_stay_below_output even_odd_fill cat_coco "images" "out"
              Hfiles Hclasses))).
Defined.

Lemma mask_name_replaces_extension_witness :
  all_dots "x.tar" = false ∧
  mask_events "out" "cat" "sub/x.tar.gz" corner_a
  = [ imwrite "out/cat/masks/sub/x.tar.png" (times_255 corner_a);
      print (Processed "sub/x.tar.gz" "cat") ] ∧
  all_dots "" = true ∧
  mask_events "out" "cat" ".hidden" corner_a
  = [ imwrite "out/cat/masks/.hidden.png" (times_255 corner_a);
      print (Processed ".hidden" "cat") ] ∧
  has_char "." "a" = false ∧
  mask_events "out" "cat" "a" corner_a
  = [ imwrite "out/cat/masks/a.png" (times_255 corner_a);
      print (Processed "a" "cat") ].
Proof.
  assert ("sub/" = "" ∨ ∃ d, "sub/" = d +:+ "/") as Hdir by (right; by exists "sub").
  assert ("" = "" ∨ ∃ d, "" = d +:+ "/") as Hnodir by by left.
  refine (conj eq_refl (conj _ (conj eq_refl (conj _ (conj eq_refl _))))).
  - exact (proj1 (mask_name_replaces_extension "out" "cat" "sub/" "x.tar" "gz"
                    corner_a Hdir eq_refl eq_refl eq_refl) eq_refl).
  - exact (proj1 (proj2 (mask_name_replaces_extension "out" "cat" "" "" "hidden"
                           corner_a Hnodir eq_refl eq_refl eq_refl)) eq_refl).
  - exact (proj2 (proj2 (mask_name_replaces_extension "out" "cat" "" "a" "jpg"
                           corner_a Hnodir eq_refl eq_refl eq_refl)) eq_refl).
Defined.

Lemma narration_follows_the_document_witness :
  process_coco_dataset even_odd_fill cat_coco "images" "out"
  = Returned {["cat" := 1%nat; "clean" := 1%nat]}
      (events_of (process_coco_dataset even_odd_fill cat_coco "images" "out")) ∧
  omap printed
    (events_of (process_coco_dataset even_odd_fill cat_coco "images" "out"))
  = [ Moved_unlabeled "b.jpg"; Processed "a.jpg" "cat";
      Summary_header; Summary_rule; Summary_line "cat" 1;
      Summary_line "clean" 1; Summary_rule; Summary_total 2 ] ∧
  ∃ notices,
    omap printed
      (events_of (process_coco_dataset even_odd_fill cat_coco "images" "out"))
    = ((λ img, Moved_unlabeled (file_name img)) <$> unlabeled_images cat_coco)
      ++ notices
      ++ [Summary_header; Summary_rule]
      ++ ((λ item, Summary_line item.1 item.2)
            <$> sorted_items {["cat" := 1%nat; "clean" := 1%nat]})
      ++ [ Summary_rule;
           Summary_total
             (sum_list (sorted_items {["cat" := 1%nat; "clean" := 1%nat]}).*2) ] ∧
    Forall2 (reported cat_coco) (image_annotations cat_coco) notices.
Proof.
  assert (process_coco_dataset even_odd_fill cat_coco "images" "out"
          = Returned {["cat" := 1%nat; "clean" := 1%nat]}
              (events_of (process_coco_dataset even_odd_fill cat_coco "images" "out")))
    as Hcall by reflexivity.
  refine (conj Hcall (conj eq_refl _)).
  exact (narration_follows_the_document even_odd_fill cat_coco "images" "out"
           _ _ Hcall).
Defined.

Lemma first_unprocessable_entry_decides_witness :
  in_domain late_coco ∧
  process_coco_dataset even_odd_fill late_coco "images" "out"
  = Raised (KeyError 7)
      [ makedirs "out/clean"; makedirs "out/cat/images"; makedirs "out/cat/masks";
        copy2 "images/a.jpg" "out/cat/images/a.jpg";
        imwrite "out/cat/masks/a.png"
          {| nrows := 4; ncols := 4;
             cells := [[255; 255; 255; 0]; [255; 255; 255; 0];
                       [255; 255; 255; 0]; [0; 0; 0; 0]] |};
        print (Processed "a.jpg" "cat") ] ∧
  ∃ before iid anns after counts1 counts2 evs_before evs_last,
    image_annotations late_coco = before ++ (iid, anns) :: after ∧
    Forall (λ item, processable late_coco item.1 item.2) before ∧
    ¬ processable late_coco iid anns ∧
    for_each before (process_image even_odd_fill late_coco "images" "out")
      (Nat.iter (length (unlabeled_images late_coco)) (bump "clean") ∅)
    = (Ok tt, counts1, evs_before) ∧
    Forall2 (reported late_coco) before (omap printed evs_before) ∧
    process_image even_odd_fill late_coco "images" "out" (iid, anns) counts1
    = (Raise (KeyError 7), counts2, evs_last) ∧
    omap printed evs_last = [] ∧
    [ makedirs "out/clean"; makedirs "out/cat/images"; makedirs "out/cat/masks";
      copy2 "images/a.jpg" "out/cat/images/a.jpg";
      imwrite "out/cat/masks/a.png"
        {| nrows := 4; ncols := 4;
           cells := [[255; 255; 255; 0]; [255; 255; 255; 0];
                     [255; 255; 255; 0]; [0; 0; 0; 0]] |};
      print (Processed "a.jpg" "cat") ]
    = (makedirs (clean_dir "out")
       :: (unlabeled_images late_coco ≫= clean_events "images" "out"))
      ++ evs_before ++ evs_last.
Proof.
  assert (in_domain late_coco) as Hfull by in_domain_sample.
  refine (conj Hfull (conj eq_refl _)).
  exact (first_unprocessable_entry_decides even_odd_fill late_coco "images" "out"
           _ _ Hfull eq_refl).
Defined.

Lemma every_image_is_accounted_for_witness :
  NoDup (img_id <$> images cat_coco) ∧
  process_coco_dataset even_odd_fill cat_coco "images" "out"
  = Returned {["cat" := 1%nat; "clean" := 1%nat]}
      (events_of (process_coco_dataset even_odd_fill cat_coco "images" "out")) ∧
  {| img_id := 1; file_name := "a.jpg"; height := 4; width := 4 |}
    ∈ images cat_coco ∧
  ∃ name,
    class_of cat_coco (filter (λ a, image_id a = 1) (annotations cat_coco))
    = Some name ∧
    copy2 (path_join "images" "a.jpg")
          (path_join (path_join (path_join "out" name) "images") "a.jpg")
      ∈ events_of (process_coco_dataset even_odd_fill cat_coco "images" "out") ∧
    print (Processed "a.jpg" name)
      ∈ events_of (process_coco_dataset even_odd_fill cat_coco "images" "out").
Proof.
  assert (∀ x, x ∈ filter (λ a, image_id a = 1) (annotations cat_coco) →
               category_id x = 1) as Hall
    by (intros x Hx; vm_compute in Hx; members Hx).
  assert (NoDup (img_id <$> images cat_coco)) as Hnd by compute_done.
  assert (process_coco_dataset even_odd_fill cat_coco "images" "out"
          = Returned {["cat" := 1%nat; "clean" := 1%nat]}
              (events_of (process_coco_dataset even_odd_fill cat_coco "images" "out")))
    as Hcall by reflexivity.
  assert ({| img_id := 1; file_name := "a.jpg"; height := 4; width := 4 |}
            ∈ images cat_coco) as Himg by left.
  refine (conj Hnd (conj Hcall (conj Himg _))).
  destruct (every_image_is_accounted_for even_odd_fill cat_coco "images" "out"
              _ _ _ Hnd Hcall Himg)
    as [(Hnone & _)|[((a & b & Ha & Hb & Hab) & _)|Hone]].
  - discriminate Hnone.
  - exfalso. apply Hab. by rewrite (Hall a), (Hall b).
  - exact Hone.
Defined.
